(** * declare-objects: a shallow embedding of the durable-object declaration script

    The development follows the script top to bottom: the string and array
    primitives it calls, the four naming-style regular expressions, the style
    classifier ([getNamingStyleFromNamedItems], [getNamingStyleFromOtherBindings]),
    the name transcoder ([styleNames]), the candidate extraction from the
    type checker's answer, the reconciliation filter, and the top-level
    script with its prompts, exits and the single [patchConfig] call.

    Strings are sequences of code units, written as [string].  The case
    mappings are the ASCII ones, which is what [toLowerCase] and
    [toUpperCase] do on code units below 128; every regular expression of
    the script accepts only such code units. *)

From Stdlib Require Import String Ascii List Bool Arith NArith Lia Permutation.
From Stdlib Require Import DecimalString.
Import ListNotations.
Local Open Scope list_scope.
Local Open Scope string_scope.

(** ** String primitives *)

Module Js.

Definition code (c : ascii) : N := N_of_ascii c.

Definition between (lo hi c : ascii) : bool :=
  ((code lo <=? code c) && (code c <=? code hi))%N.

Definition isUpper (c : ascii) : bool := between "A" "Z" c.
Definition isLower (c : ascii) : bool := between "a" "z" c.
Definition isDigit (c : ascii) : bool := between "0" "9" c.

(** White space as [String.prototype.trim] sees it, on code units below 256:
    TAB, LF, VT, FF, CR, SPACE and NBSP. *)
Definition isWhiteSpace (c : ascii) : bool :=
  ((9 <=? code c) && (code c <=? 13) || (code c =? 32) || (code c =? 160))%N.

(** The case mappings of one code unit.  They are those of [toLowerCase]
    and [toUpperCase] on code units below 128, which are all that a name
    passing one of the script's patterns has; code units from 128 on are
    left as they are here, where JavaScript maps some of them. *)
Definition lowerChar (c : ascii) : ascii :=
  if isUpper c then ascii_of_N (code c + 32) else c.

Definition upperChar (c : ascii) : ascii :=
  if isLower c then ascii_of_N (code c - 32) else c.

Fixpoint mapChars (f : ascii -> ascii) (s : string) : string :=
  match s with
  | EmptyString => EmptyString
  | String c s' => String (f c) (mapChars f s')
  end.

Definition toLowerCase : string -> string := mapChars lowerChar.
Definition toUpperCase : string -> string := mapChars upperChar.

Fixpoint trimStart (s : string) : string :=
  match s with
  | EmptyString => EmptyString
  | String c s' => if isWhiteSpace c then trimStart s' else s
  end.

Fixpoint trimEnd (s : string) : string :=
  match s with
  | EmptyString => EmptyString
  | String c s' =>
      match trimEnd s' with
      | EmptyString => if isWhiteSpace c then EmptyString else String c EmptyString
      | t => String c t
      end
  end.

Definition trim (s : string) : string := trimEnd (trimStart s).

(** [s.split(sep)] for a separator of one code unit. *)
Fixpoint split (sep : ascii) (s : string) : list string :=
  match s with
  | EmptyString => [EmptyString]
  | String c s' =>
      if Ascii.eqb c sep then EmptyString :: split sep s'
      else match split sep s' with
           | p :: ps => String c p :: ps
           | [] => [String c EmptyString]
           end
  end.

(** [parts.join(sep)] *)
Fixpoint join (sep : string) (parts : list string) : string :=
  match parts with
  | [] => EmptyString
  | [p] => p
  | p :: ps => p ++ sep ++ join sep ps
  end.

(** [s.replaceAll(c, "")] for a pattern of one code unit. *)
Fixpoint removeAll (c : ascii) (s : string) : string :=
  match s with
  | EmptyString => EmptyString
  | String d s' => if Ascii.eqb d c then removeAll c s' else String d (removeAll c s')
  end.

(** [s.replace(/([A-Z])/g, " $1")]: every upper-case letter gets a space
    in front of it. *)
Fixpoint spaceBeforeUpper (s : string) : string :=
  match s with
  | EmptyString => EmptyString
  | String c s' =>
      if isUpper c then String " " (String c (spaceBeforeUpper s'))
      else String c (spaceBeforeUpper s')
  end.

(** [arr.includes(x)] on an array of strings. *)
Definition includes (arr : list string) (x : string) : bool :=
  existsb (String.eqb x) arr.

(** [`${n}`] for a length. *)
Definition showNat (n : nat) : string := NilZero.string_of_uint (Nat.to_uint n).

End Js.

(** ** Regular expressions

    The script's patterns are all of the shape [/^r$/] without flags, so
    [test] is a match of the whole string. *)

Module Re.

Inductive regex : Type :=
| Empty
| Eps
| Chr (c : ascii)
| Class (ranges : list (ascii * ascii))
| Seq (r1 r2 : regex)
| Alt (r1 r2 : regex)
| Star (r : regex).

Definition Plus (r : regex) : regex := Seq r (Star r).

Definition inClass (ranges : list (ascii * ascii)) (c : ascii) : bool :=
  existsb (fun r => Js.between (fst r) (snd r) c) ranges.

Fixpoint nullable (r : regex) : bool :=
  match r with
  | Empty => false
  | Eps => true
  | Chr _ => false
  | Class _ => false
  | Seq r1 r2 => nullable r1 && nullable r2
  | Alt r1 r2 => nullable r1 || nullable r2
  | Star _ => true
  end.

Fixpoint deriv (c : ascii) (r : regex) : regex :=
  match r with
  | Empty => Empty
  | Eps => Empty
  | Chr d => if Ascii.eqb c d then Eps else Empty
  | Class rs => if inClass rs c then Eps else Empty
  | Seq r1 r2 =>
      if nullable r1 then Alt (Seq (deriv c r1) r2) (deriv c r2)
      else Seq (deriv c r1) r2
  | Alt r1 r2 => Alt (deriv c r1) (deriv c r2)
  | Star r1 => Seq (deriv c r1) (Star r1)
  end.

(** [/^r$/.test(s)] *)
Fixpoint test (r : regex) (s : string) : bool :=
  match s with
  | EmptyString => nullable r
  | String c s' => test (deriv c r) s'
  end.

(** The declarative reading of a pattern. *)
Inductive Matches : regex -> string -> Prop :=
| MEps : Matches Eps ""
| MChr c : Matches (Chr c) (String c "")
| MClass rs c : inClass rs c = true -> Matches (Class rs) (String c "")
| MSeq r1 r2 s1 s2 :
    Matches r1 s1 -> Matches r2 s2 -> Matches (Seq r1 r2) (s1 ++ s2)
| MAltL r1 r2 s : Matches r1 s -> Matches (Alt r1 r2) s
| MAltR r1 r2 s : Matches r2 s -> Matches (Alt r1 r2) s
| MStarNil r : Matches (Star r) ""
| MStarApp r s1 s2 :
    Matches r s1 -> Matches (Star r) s2 -> Matches (Star r) (s1 ++ s2).

End Re.

(** ** Naming styles *)

Inductive NamingStyle : Type := camel | pascal | upper_snake | lower_snake.

Definition namingStyleDisplayNames (s : NamingStyle) : string :=
  match s with
  | camel => "camelCase"
  | pascal => "PascalCase"
  | upper_snake => "UPPER_SNAKE_CASE"
  | lower_snake => "lower_snake_case"
  end.

Module Pattern.
Import Re.

Definition az : ascii * ascii := ("a"%char, "z"%char).
Definition AZ : ascii * ascii := ("A"%char, "Z"%char).
Definition d09 : ascii * ascii := ("0"%char, "9"%char).

(** [/^[a-z][a-zA-Z0-9]*$/] *)
Definition camelCase : regex :=
  Seq (Class [az]) (Star (Class [az; AZ; d09])).

(** [/^[A-Z][a-zA-Z0-9]*$/] *)
Definition pascalCase : regex :=
  Seq (Class [AZ]) (Star (Class [az; AZ; d09])).

(** [/^[A-Z][A-Z0-9]*(_[A-Z0-9]+)*$/] *)
Definition upperSnakeCase : regex :=
  Seq (Class [AZ])
    (Seq (Star (Class [AZ; d09]))
         (Star (Seq (Chr "_") (Plus (Class [AZ; d09]))))).

(** [/^[a-z][a-z0-9]*(_[a-z0-9]+)*$/] *)
Definition lowerSnakeCase : regex :=
  Seq (Class [az])
    (Seq (Star (Class [az; d09]))
         (Star (Seq (Chr "_") (Plus (Class [az; d09]))))).

(** The pattern the classifier tests for each style. *)
Definition forStyle (s : NamingStyle) : regex :=
  match s with
  | camel => camelCase
  | pascal => pascalCase
  | upper_snake => upperSnakeCase
  | lower_snake => lowerSnakeCase
  end.

End Pattern.

(** ** Configuration *)

Record NamedItem : Type := { binding : string }.

Record DurableObjectBinding : Type := { name : string; class_name : string }.

Record DurableObjects : Type := { bindings : list DurableObjectBinding }.

Record Migration : Type := { tag : string; new_sqlite_classes : list string }.

(** The part of wrangler's [Config] the script reads.  A binding category
    may be absent, which the script tests with [if (!value)]. *)
Record Config : Type := {
  configPath : option string;
  main : option string;
  kv_namespaces : option (list NamedItem);
  services : option (list NamedItem);
  d1_databases : option (list NamedItem);
  vectorize : option (list NamedItem);
  durable_objects : DurableObjects
}.

Inductive BindingKey : Type :=
| key_kv_namespaces | key_services | key_d1_databases | key_vectorize.

Definition keys : list BindingKey :=
  [key_kv_namespaces; key_services; key_d1_databases; key_vectorize].

(** [config[key]] *)
Definition configAt (config : Config) (key : BindingKey) : option (list NamedItem) :=
  match key with
  | key_kv_namespaces => kv_namespaces config
  | key_services => services config
  | key_d1_databases => d1_databases config
  | key_vectorize => vectorize config
  end.

(** ** Style classifier *)

(** [items.every((item) => re.test(item.binding))] *)
Definition everyMatches (re : Re.regex) (items : list NamedItem) : bool :=
  forallb (fun item => Re.test re (binding item)) items.

Definition getNamingStyleFromNamedItems (items : list NamedItem) : option NamingStyle :=
  if Nat.eqb (length items) 0 then None
  else if everyMatches Pattern.camelCase items then Some camel
  else if everyMatches Pattern.pascalCase items then Some pascal
  else if everyMatches Pattern.upperSnakeCase items then Some upper_snake
  else if everyMatches Pattern.lowerSnakeCase items then Some lower_snake
  else None.

(** The [for (const key of keys)] loop of [getNamingStyleFromOtherBindings]:
    the style of the first category that has one, the loop's [return], or
    [None] when the loop falls through to the prompt. *)
Fixpoint detectedStyle (config : Config) (ks : list BindingKey) : option NamingStyle :=
  match ks with
  | [] => None
  | key :: rest =>
      match configAt config key with
      | None => detectedStyle config rest
      | Some value =>
          match getNamingStyleFromNamedItems value with
          | Some maybeStyle => Some maybeStyle
          | None => detectedStyle config rest
          end
      end
  end.

(** ** Name transcoder *)

Definition styleNames (nameAsPascalCase : string) (style : NamingStyle) : string :=
  match style with
  | pascal => nameAsPascalCase
  | _ =>
      let parts := Js.split " " (Js.trim (Js.spaceBeforeUpper nameAsPascalCase)) in
      match style with
      | camel =>
          (* [split] never returns an empty array, see [split_not_nil] *)
          match parts with
          | p0 :: rest => Js.toLowerCase p0 ++ Js.join "" rest
          | [] => nameAsPascalCase
          end
      | upper_snake => Js.join "_" (map Js.toUpperCase parts)
      | lower_snake => Js.join "_" (map Js.toLowerCase parts)
      | pascal => nameAsPascalCase
      end
  end.

(** ** The type checker's answer *)

Module Ts.

#[local] Set Warnings "-register-all".

(** A type as the script looks at it: [isUnion()] with its [types],
    [isStringLiteral()], or anything else (with its printed form). *)
Inductive Type_ : Type :=
| Union (types : list Type_)
| StringLiteral (value : string)
| Other (text : string).

(** An export of the resolver module; [type] is what
    [checker.getTypeOfSymbol] answers for it. *)
Record Symbol : Type := { name : string; type : Type_ }.

(** The module symbol of a source file with [checker.getExportsOfModule]. *)
Record ModuleSymbol : Type := { exports : list Symbol }.

(** A source file with what [checker.getSymbolAtLocation] answers for it. *)
Record SourceFile : Type := { symbol : option ModuleSymbol }.

Record TypeChecker : Type := { typeToString : Type_ -> string }.

Record Program : Type := {
  getSourceFile : string -> option SourceFile;
  getTypeChecker : TypeChecker
}.

End Ts.

Definition doubleQuote : ascii := ascii_of_nat 34.

(** Lines 273-283: the candidate names read off the default export's type;
    [None] is the [undefined] the variable starts with. *)
Definition itemsOfDefaultType (checker : Ts.TypeChecker) (defaultType : Ts.Type_)
  : option (list string) :=
  match defaultType with
  | Ts.Union types =>
      Some (map (fun it => Js.removeAll doubleQuote (Ts.typeToString checker it)) types)
  | Ts.StringLiteral _ =>
      Some [Js.removeAll doubleQuote (Ts.typeToString checker defaultType)]
  | Ts.Other _ => None
  end.

(** Lines 285-287: [items.filter((name) => !existingDurableObjects.includes(name))] *)
Definition withoutExisting (existingDurableObjects items : list string) : list string :=
  filter (fun name => negb (Js.includes existingDurableObjects name)) items.

(** ** The update handed to [patchConfig] *)

Record ConfigPatch : Type := {
  patch_durable_objects : DurableObjects;
  patch_migrations : list Migration
}.

(** Lines 315-328, with [now] for [new Date().toISOString()]. *)
Definition patchOf (itemsExtendingDurableObject : list string)
  (namingStyle : NamingStyle) (now : string) : ConfigPatch :=
  {| patch_durable_objects :=
       {| bindings :=
            map (fun it => {| name := styleNames it namingStyle; class_name := it |})
              itemsExtendingDurableObject |};
     patch_migrations :=
       [ {| tag := now ++ "-" ++ Js.join "-" itemsExtendingDurableObject;
            new_sqlite_classes := itemsExtendingDurableObject |} ] |}.

(** ** The script's effects *)

(** What a prompt of [@clack/prompts] resolves to: the cancel symbol or a value. *)
Inductive Answer (T : Type) : Type :=
| Cancelled
| Answered (value : T).
Arguments Cancelled {T}.
Arguments Answered {T} value.

(** Everything the script asks of its surroundings.  The collaborators are
    taken as they answer. *)
Record World : Type := {
  readConfig : Config;                  (* [readConfig({})] *)
  nodeStdout : string;                  (* stdout of [node -e script] *)
  program : Ts.Program;                 (* [ts.createProgram(...)] *)
  dim : string -> string;               (* chalk's [c.dim] *)
  selectAnswer : Answer NamingStyle;    (* the operator at [select] *)
  confirmAnswer : Answer bool;          (* the operator at [confirm] *)
  toISOString : string                  (* [new Date().toISOString()] *)
}.

Inductive Event : Type :=
| console_info (text : string)
| console_warn (text : string)
| console_log (text : string)
| prompt_select (message : string) (options : list (string * NamingStyle))
| prompt_confirm (message : string)
| patchConfig (path : string) (patch : ConfigPatch).

(** How a run stops early: [process.exit(code)] or an uncaught [Error]. *)
Inductive Halt : Type :=
| exited (code : nat)
| thrown (message : string).

(** A computation reads the world, appends to the trace of events and
    either yields a value or halts. *)
Definition M (A : Type) : Type := World -> list Event * (A + Halt).

Definition ret {A} (a : A) : M A := fun _ => ([], inl a).

Definition bind {A B} (m : M A) (f : A -> M B) : M B :=
  fun w =>
    let (t1, r) := m w in
    match r with
    | inl a => let (t2, r2) := f a w in ((t1 ++ t2)%list, r2)
    | inr h => (t1, inr h)
    end.

Notation "x <- m ;; k" := (bind m (fun x => k))
  (at level 61, m at next level, right associativity).
Notation "m ;; k" := (bind m (fun _ => k))
  (at level 61, right associativity).

Definition ask {A} (f : World -> A) : M A := fun w => ([], inl (f w)).
Definition emit (e : Event) : M unit := fun _ => ([e], inl tt).
Definition halt {A} (h : Halt) : M A := fun _ => ([], inr h).

Definition processExit {A} (code : nat) : M A := halt (exited code).

(** util.ts *)
Definition bail {A} (message : string) : M A := halt (thrown message).

Definition assertNotCancelled {T} (value : Answer T) : M T :=
  match value with
  | Cancelled => processExit 1
  | Answered v => ret v
  end.

(** [x ?? bail(message)] *)
Definition orBail {A} (x : option A) (message : string) : M A :=
  match x with
  | Some a => ret a
  | None => bail message
  end.

Fixpoint forOf {A} (l : list A) (body : A -> M unit) : M unit :=
  match l with
  | [] => ret tt
  | x :: rest => body x ;; forOf rest body
  end.

Definition select (message : string) (options : list (string * NamingStyle))
  : M (Answer NamingStyle) :=
  emit (prompt_select message options) ;; ask selectAnswer.

Definition confirm (message : string) : M (Answer bool) :=
  emit (prompt_confirm message) ;; ask confirmAnswer.

(** ** The script *)

Definition findTypeScriptPath : M (option string) :=
  stdout <- ask nodeStdout ;;
  let typescriptPath := Js.trim stdout in
  ret (if Nat.ltb 0 (String.length typescriptPath) then Some typescriptPath else None).

(** Lines 77-133.  The errors the function raises itself are modelled;
    [await import(tsPath)] and the calls of the TypeScript API are taken to
    return, their result being the [program] of the world: an exception of
    one of these collaborators is not among the outcomes. *)
Definition createTypescript (wranglerConfig : Config) (script : option string)
  : M Ts.Program :=
  tsPath <- findTypeScriptPath ;;
  match tsPath with
  | None => bail "TypeScript must be installed to use this command"
  | Some _ =>
      _main <- match script with
               | Some s => ret s
               | None => orBail (main wranglerConfig) "Worker main was not found"
               end ;;
      ask program
  end.

Definition selectOptions : list (string * NamingStyle) :=
  [ ("UPPER_SNAKE_CASE", upper_snake); ("camelCase", camel);
    ("lower_snake_case", lower_snake); ("PascalCase", pascal) ].

Definition getNamingStyleFromOtherBindings (config : Config) : M NamingStyle :=
  match detectedStyle config keys with
  | Some maybeStyle =>
      c_dim <- ask dim ;;
      emit (console_info ("Detected bindings with "
                          ++ c_dim (namingStyleDisplayNames maybeStyle)
                          ++ " naming style, using that for Durable Objects")) ;;
      ret maybeStyle
  | None =>
      style <- select "What naming style should be used for the Durable Objects?"
                 selectOptions ;;
      assertNotCancelled style
  end.

(** Lines 257-271: the type of the resolver file's default export, with
    the checker that printed it. *)
Definition defaultTypeOf (config : Config) : M (Ts.TypeChecker * Ts.Type_) :=
  program <- createTypescript config None ;;
  let checker := Ts.getTypeChecker program in
  resolverFile <- orBail (Ts.getSourceFile program "/declare/resolver.ts")
                    "Resolver file was not found" ;;
  sourceFileSymbol <- orBail (Ts.symbol resolverFile)
                        "resolver file symbol was not found" ;;
  let exports := Ts.exports sourceFileSymbol in
  defaultExport <- orBail (find (fun e => String.eqb (Ts.name e) "default") exports)
                     "Default export was not found" ;;
  ret (checker, Ts.type defaultExport).

Definition foundMessage (n : nat) : string :=
  "Found " ++ Js.showNat n ++ " Durable Objects that aren't present in your wrangler config".

Definition confirmMessage (n : nat) : string :=
  "Are you sure you want to declare " ++ Js.showNat n
  ++ " Durable Objects in your config and add a migration for them?".

(** Lines 289-329: report, ask, patch.  The call of [patchConfig] is the
    event of that name and is taken to return: an exception of the
    collaborator, which the script does not catch, is not among the
    outcomes. *)
Definition declare (config : Config) (itemsExtendingDurableObject : option (list string))
  : M unit :=
  match itemsExtendingDurableObject with
  | None => bail "No Durable Objects found in your Worker"
  | Some items =>
      emit (console_warn (foundMessage (length items))) ;;
      forOf items (fun item => emit (console_log (" - " ++ item))) ;;
      emit (console_log "") ;;
      namingStyle <- getNamingStyleFromOtherBindings config ;;
      confirmed <- confirm (confirmMessage (length items)) ;;
      confirmed <- assertNotCancelled confirmed ;;
      (if negb confirmed then processExit 0 else ret tt) ;;
      path <- orBail (configPath config) "No config path found" ;;
      now <- ask toISOString ;;
      emit (patchConfig path (patchOf items namingStyle now))
  end.

(** Lines 273-287 between the two: the candidates, less the declared ones. *)
Definition netNewItems (config : Config) (checker : Ts.TypeChecker)
  (defaultType : Ts.Type_) : option (list string) :=
  let existingDurableObjects := map name (bindings (durable_objects config)) in
  let itemsExtendingDurableObject := itemsOfDefaultType checker defaultType in
  option_map (withoutExisting existingDurableObjects) itemsExtendingDurableObject.

Definition script : M unit :=
  config <- ask readConfig ;;
  checked <- defaultTypeOf config ;;
  declare config (netNewItems config (fst checked) (snd checked)).

(** ** Observations on a run *)

Definition trace (w : World) : list Event := fst (script w).

Definition outcome (w : World) : unit + Halt := snd (script w).

(** The status the process ends with: 0 after the last statement, the
    argument of [process.exit], 1 for an uncaught error. *)
Definition exitStatus (r : unit + Halt) : nat :=
  match r with
  | inl _ => 0
  | inr (exited code) => code
  | inr (thrown _) => 1
  end.

Definition isPatch (e : Event) : bool :=
  match e with patchConfig _ _ => true | _ => false end.

Definition isPrompt (e : Event) : bool :=
  match e with prompt_select _ _ | prompt_confirm _ => true | _ => false end.

Definition patchCalls (t : list Event) : list Event := filter isPatch t.

Definition prompts (t : list Event) : list Event := filter isPrompt t.

(** ** Vocabulary of the statements *)

Fixpoint allChars (p : ascii -> bool) (s : string) : bool :=
  match s with
  | EmptyString => true
  | String c s' => p c && allChars p s'
  end.

(** Letters, digits and underscore. *)
Definition wordChar (c : ascii) : bool :=
  Js.isLower c || Js.isUpper c || Js.isDigit c || Ascii.eqb c "_".

Definition alnum (c : ascii) : bool := Js.isLower c || Js.isUpper c || Js.isDigit c.
Definition lowerOrDigit (c : ascii) : bool := Js.isLower c || Js.isDigit c.
Definition upperOrDigit (c : ascii) : bool := Js.isUpper c || Js.isDigit c.

(** A word of a PascalCase name: an upper-case letter, then lower-case
    letters and digits. *)
Definition isWord (w : string) : bool :=
  match w with
  | EmptyString => false
  | String c t => Js.isUpper c && allChars lowerOrDigit t
  end.

(** The code units a pattern can consume. *)
Fixpoint mayContain (r : Re.regex) (c : ascii) : bool :=
  match r with
  | Re.Empty | Re.Eps => false
  | Re.Chr d => Ascii.eqb c d
  | Re.Class rs => Re.inClass rs c
  | Re.Seq r1 r2 | Re.Alt r1 r2 => mayContain r1 c || mayContain r2 c
  | Re.Star r1 => mayContain r1 c
  end.

(** A string that does not end in white space. *)
Fixpoint endsClean (s : string) : bool :=
  match s with
  | EmptyString => true
  | String c s' =>
      match s' with
      | EmptyString => negb (Js.isWhiteSpace c)
      | _ => endsClean s'
      end
  end.

(** [sep ++ p1 ++ sep ++ p2 ++ ...]: what [join] puts after the first part. *)
Fixpoint prefixed (sep : string) (parts : list string) : string :=
  match parts with
  | [] => EmptyString
  | p :: ps => sep ++ p ++ prefixed sep ps
  end.

(** Every binding name of [items] passes the pattern of [style]. *)
Definition unanimous (style : NamingStyle) (items : list NamedItem) : Prop :=
  everyMatches (Pattern.forStyle style) items = true.

(** A category that decides the style: present, not empty, unanimous. *)
Definition decides (value : option (list NamedItem)) : Prop :=
  exists items style, value = Some items /\ items <> [] /\ unanimous style items.

(** The order in which the classifier tries the patterns. *)
Definition rank (style : NamingStyle) : nat :=
  match style with
  | camel => 0
  | pascal => 1
  | upper_snake => 2
  | lower_snake => 3
  end.

(** One word, nothing but upper-case letters and digits: [[A-Z][A-Z0-9]*];
    and its lower-case twin. *)
Definition singleUpperWord : Re.regex :=
  Re.Seq (Re.Class [Pattern.AZ]) (Re.Star (Re.Class [Pattern.AZ; Pattern.d09])).
Definition singleLowerWord : Re.regex :=
  Re.Seq (Re.Class [Pattern.az]) (Re.Star (Re.Class [Pattern.az; Pattern.d09])).

(** The style the run goes on with; [None] when the style prompt is cancelled. *)
Definition resolvedStyle (config : Config) (w : World) : option NamingStyle :=
  match detectedStyle config keys with
  | Some s => Some s
  | None => match selectAnswer w with
            | Answered s => Some s
            | Cancelled => None
            end
  end.

(** The net-new names of a run whose setup went through. *)
Definition netNew (w : World) (items : option (list string)) : Prop :=
  exists checker defaultType,
    defaultTypeOf (readConfig w) w = ([], inl (checker, defaultType)) /\
    netNewItems (readConfig w) checker defaultType = items.

(** The lines that report the findings. *)
Definition report (items : list string) : list Event :=
  console_warn (foundMessage (length items))
  :: map (fun item => console_log (" - " ++ item)) items ++ [console_log ""].

Definition stylePrompt : Event :=
  prompt_select "What naming style should be used for the Durable Objects?" selectOptions.

(** [discovered] restricted to the names that occur in [kept]. *)
Definition intersect (discovered kept : list string) : list string :=
  filter (Js.includes kept) discovered.

Definition quoteFree (s : string) : bool :=
  allChars (fun c => negb (Ascii.eqb c doubleQuote)) s.

(** A string literal as the type printer shows it. *)
Definition quoted (v : string) : string :=
  String doubleQuote (v ++ String doubleQuote "").

(** What resolving the style shows: the detection notice or the prompt. *)
Definition styleEvents (config : Config) (w : World) : list Event :=
  match detectedStyle config keys with
  | Some s =>
      [console_info ("Detected bindings with " ++ dim w (namingStyleDisplayNames s)
                     ++ " naming style, using that for Durable Objects")]
  | None => [stylePrompt]
  end.

(** ** Vocabulary of the further properties *)

(** [s] with [sep] put in front of every upper-case letter. *)
Fixpoint beforeUpper (sep : string) (s : string) : string :=
  match s with
  | EmptyString => EmptyString
  | String c s' =>
      if Js.isUpper c then sep ++ String c (beforeUpper sep s')
      else String c (beforeUpper sep s')
  end.

Definition startsWith (p : ascii -> bool) (s : string) : bool :=
  match s with
  | EmptyString => false
  | String c _ => p c
  end.

Fixpoint contains (c : ascii) (s : string) : bool :=
  match s with
  | EmptyString => false
  | String d s' => Ascii.eqb d c || contains c s'
  end.

(** The styles whose names begin with a lower-case letter. *)
Definition lowerInitial (style : NamingStyle) : bool :=
  match style with
  | camel | lower_snake => true
  | pascal | upper_snake => false
  end.

(** The styles that separate words by underscores. *)
Definition isSnake (style : NamingStyle) : bool :=
  match style with
  | upper_snake | lower_snake => true
  | camel | pascal => false
  end.

(** The case of the first letter under a style. *)
Definition initialOf (style : NamingStyle) : ascii -> bool :=
  if lowerInitial style then Js.isLower else Js.isUpper.

(** The binding names of a category. *)
Definition namesOf (items : list NamedItem) : list string := map binding items.

(** A category made of the given names. *)
Definition itemsOf (names : list string) : list NamedItem :=
  map (fun n => {| binding := n |}) names.

(** The errors a run can end with. *)
Definition errorMessages : list string :=
  [ "TypeScript must be installed to use this command";
    "Worker main was not found";
    "Resolver file was not found";
    "resolver file symbol was not found";
    "Default export was not found";
    "No Durable Objects found in your Worker";
    "No config path found" ].

(** [config] with the class of every existing durable-object binding
    replaced, the binding names kept. *)
Definition withClasses (f : string -> string) (config : Config) : Config :=
  {| configPath := configPath config;
     main := main config;
     kv_namespaces := kv_namespaces config;
     services := services config;
     d1_databases := d1_databases config;
     vectorize := vectorize config;
     durable_objects :=
       {| bindings :=
            map (fun b => {| name := name b; class_name := f (class_name b) |})
              (bindings (durable_objects config)) |} |}.

(** [w] with another configuration to read. *)
Definition withConfig (config : Config) (w : World) : World :=
  {| readConfig := config;
     nodeStdout := nodeStdout w;
     program := program w;
     dim := dim w;
     selectAnswer := selectAnswer w;
     confirmAnswer := confirmAnswer w;
     toISOString := toISOString w |}.


(** The tags of the migrations of a patch. *)
Definition tagsOf (patch : ConfigPatch) : list string :=
  map tag (patch_migrations patch).


(** ** The classifier as the specification words it

    These definitions follow section 4.4 of the specification and use
    neither [everyMatches], [keys] nor the loop: the categories are listed
    in their priority order, and a name is consistent with a style when it
    is in the language of the pattern of that style. *)

Module Spec.

(** The binding categories in their fixed priority order. *)
Definition categories (config : Config) : list (option (list NamedItem)) :=
  [kv_namespaces config; services config; d1_databases config; vectorize config].

(** All binding names are consistent with the pattern of [style]. *)
Definition allConsistent (style : NamingStyle) (items : list NamedItem) : Prop :=
  Forall (fun item => Re.Matches (Pattern.forStyle style) (binding item)) items.

(** The binding names are all consistent with exactly one of the four
    patterns, which is [style]; a category with zero bindings has none. *)
Definition exactlyOne (items : list NamedItem) (style : NamingStyle) : Prop :=
  items <> [] /\ allConsistent style items /\
  forall s', allConsistent s' items -> s' = style.

(** The first category whose names are consistent with exactly one
    pattern has the pattern [style]. *)
Definition firstExactlyOne (cats : list (option (list NamedItem)))
  (style : NamingStyle) : Prop :=
  exists before items after,
    cats = (before ++ Some items :: after)%list /\
    (forall its s, In (Some its) before -> ~ exactlyOne its s) /\
    exactlyOne items style.

(** The binding names have a pattern in common. *)
Definition common (items : list NamedItem) : Prop :=
  items <> [] /\ exists s, allConsistent s items.

(** [style] is the first pattern, in the order camel, pascal, upper_snake,
    lower_snake, that the binding names have in common. *)
Definition firstPattern (items : list NamedItem) (style : NamingStyle) : Prop :=
  items <> [] /\ allConsistent style items /\
  forall s', allConsistent s' items -> rank style <= rank s'.

(** The first category whose names have a pattern in common has [style]
    as its first pattern. *)
Definition firstCommon (cats : list (option (list NamedItem)))
  (style : NamingStyle) : Prop :=
  exists before items after,
    cats = (before ++ Some items :: after)%list /\
    (forall its, In (Some its) before -> ~ common its) /\
    firstPattern items style.

(** No category has a pattern in common. *)
Definition undetermined (cats : list (option (list NamedItem))) : Prop :=
  forall its, In (Some its) cats -> ~ common its.

End Spec.

(** ** Sample worlds *)

Definition sampleChecker : Ts.TypeChecker :=
  {| Ts.typeToString := fun t =>
       match t with
       | Ts.StringLiteral v => quoted v
       | Ts.Other text => text
       | Ts.Union _ => "union"
       end |}.

Definition sampleProgram (defaultType : Ts.Type_) : Ts.Program :=
  {| Ts.getSourceFile := fun fileName =>
       if String.eqb fileName "/declare/resolver.ts"
       then Some {| Ts.symbol :=
                      Some {| Ts.exports :=
                                [{| Ts.name := "default"; Ts.type := defaultType |}] |} |}
       else None;
     Ts.getTypeChecker := sampleChecker |}.

Definition sampleConfig (kv declared : list string) : Config :=
  {| configPath := Some "wrangler.jsonc";
     main := Some "src/index.ts";
     kv_namespaces := Some (map (fun b => {| binding := b |}) kv);
     services := Some [];
     d1_databases := None;
     vectorize := Some [];
     durable_objects :=
       {| bindings := map (fun n => {| name := n; class_name := n |}) declared |} |}.

(** A worker whose resolver file answers [defaultType], a configuration
    with key-value bindings [kv] and durable objects [declared], and an
    operator who answers [sel] and [conf]. *)
Definition sampleWorld (defaultType : Ts.Type_) (kv declared : list string)
  (sel : Answer NamingStyle) (conf : Answer bool) : World :=
  {| readConfig := sampleConfig kv declared;
     nodeStdout := "/app/node_modules/typescript/lib/typescript.js";
     program := sampleProgram defaultType;
     dim := fun text => text;
     selectAnswer := sel;
     confirmAnswer := conf;
     toISOString := "2025-01-01T00:00:00.000Z" |}.

Definition literals (values : list string) : Ts.Type_ :=
  Ts.Union (map Ts.StringLiteral values).

(** A configuration whose key-value names pass two patterns (camel and
    lower_snake) and whose service names pass one (upper_snake). *)
Definition overlapConfig : Config :=
  {| configPath := Some "wrangler.jsonc";
     main := Some "src/index.ts";
     kv_namespaces := Some [{| binding := "foo" |}];
     services := Some [{| binding := "KV_ONE" |}];
     d1_databases := None;
     vectorize := Some [];
     durable_objects := {| bindings := [] |} |}.

(** * Properties *)

(** ** Regular expressions: [test] decides [Matches] *)

Module ReFacts.
Import Re.

Lemma append_nil_inv (s1 s2 : string) : s1 ++ s2 = "" -> s1 = "" /\ s2 = "".
Proof. destruct s1; simpl; [auto | discriminate]. Qed.

Lemma append_nil_r (s : string) : s ++ "" = s.
Proof. induction s; simpl; congruence. Qed.

Lemma nullable_Matches r : nullable r = true <-> Matches r "".
Proof.
  split.
  - induction r; simpl; intro H; try discriminate.
    + constructor.
    + apply andb_true_iff in H as [H1 H2].
      change "" with ("" ++ ""). constructor; auto.
    + apply orb_true_iff in H as [H | H]; [apply MAltL | apply MAltR]; auto.
    + constructor.
  - induction r; simpl; intro H; inversion H; subst; auto.
    + match goal with E : _ ++ _ = "" |- _ => apply append_nil_inv in E as [-> ->] end.
      rewrite IHr1, IHr2; auto.
    + rewrite IHr1; auto.
    + rewrite IHr2; auto using orb_true_r.
Qed.

Lemma Matches_Star_cons r c s :
  Matches (Star r) (String c s) ->
  exists s1 s2, s = s1 ++ s2 /\ Matches r (String c s1) /\ Matches (Star r) s2.
Proof.
  intro H. remember (Star r) as r' eqn:Er. remember (String c s) as t eqn:Et.
  induction H; try discriminate.
  inversion Er; subst r0.
  destruct s1 as [| c1 s1'].
  - simpl in Et. auto.
  - simpl in Et. inversion Et; subst. eauto.
Qed.

Lemma deriv_Matches c r : forall s, Matches (deriv c r) s <-> Matches r (String c s).
Proof.
  induction r; intro s; simpl.
  - split; intro H; inversion H.
  - split; intro H; inversion H.
  - destruct (Ascii.eqb_spec c c0) as [-> | Hne]; split; intro H; inversion H; subst.
    + constructor.
    + constructor.
    + congruence.
  - destruct (inClass ranges c) eqn:E; split; intro H; inversion H; subst.
    + constructor; auto.
    + constructor.
    + congruence.
  - destruct (nullable r1) eqn:N.
    + split; intro H.
      * inversion H; subst.
        -- match goal with M : Matches (Seq _ _) _ |- _ => inversion M; subst end.
           change (String c (s1 ++ s2)) with (String c s1 ++ s2).
           constructor; auto. apply IHr1; auto.
        -- change (String c s) with ("" ++ String c s).
           constructor; [apply nullable_Matches; auto | apply IHr2; auto].
      * inversion H; subst. destruct s1 as [| c1 s1'].
        -- simpl in *. subst. apply MAltR. apply IHr2; auto.
        -- match goal with E : _ ++ _ = String _ _ |- _ => simpl in E; inversion E; subst end.
           apply MAltL. constructor; auto. apply IHr1; auto.
    + split; intro H.
      * inversion H; subst.
        change (String c (s1 ++ s2)) with (String c s1 ++ s2).
        constructor; auto. apply IHr1; auto.
      * inversion H; subst. destruct s1 as [| c1 s1'].
        -- match goal with M : Matches r1 "" |- _ => apply nullable_Matches in M end.
           congruence.
        -- match goal with E : _ ++ _ = String _ _ |- _ => simpl in E; inversion E; subst end.
           constructor; auto. apply IHr1; auto.
  - split; intro H; inversion H; subst.
    + apply MAltL, IHr1; auto.
    + apply MAltR, IHr2; auto.
    + apply MAltL, IHr1; auto.
    + apply MAltR, IHr2; auto.
  - split; intro H.
    + inversion H; subst.
      change (String c (s1 ++ s2)) with (String c s1 ++ s2).
      constructor; auto. apply IHr; auto.
    + apply Matches_Star_cons in H as (s1 & s2 & -> & H1 & H2).
      constructor; auto. apply IHr; auto.
Qed.

Theorem test_Matches r s : test r s = true <-> Matches r s.
Proof.
  revert r. induction s as [| c s IH]; intro r; simpl.
  - apply nullable_Matches.
  - rewrite IH. apply deriv_Matches.
Qed.

End ReFacts.

(** ** Style classifier *)

Module ClassifierFacts.

(** The classifier answers the first pattern, in its order of trial, that
    all names pass. *)
Lemma named_items_Some items style :
  getNamingStyleFromNamedItems items = Some style <->
  items <> [] /\ unanimous style items /\
  (forall s', unanimous s' items -> rank style <= rank s').
Proof.
  unfold getNamingStyleFromNamedItems, unanimous.
  destruct items as [| i0 items]; simpl Nat.eqb; cbv iota.
  - split; [discriminate | intros [H _]; congruence].
  - destruct (everyMatches Pattern.camelCase (i0 :: items)) eqn:Ec;
      destruct (everyMatches Pattern.pascalCase (i0 :: items)) eqn:Ep;
      destruct (everyMatches Pattern.upperSnakeCase (i0 :: items)) eqn:Eu;
      destruct (everyMatches Pattern.lowerSnakeCase (i0 :: items)) eqn:El.
    all: split; [ intro H | intros (_ & Hu & Hmin) ].
    all: try discriminate.
    all: try (inversion H; subst; split; [discriminate | split; [assumption |]];
              intros s' Hs'; destruct s'; simpl in *; try lia; congruence).
    all: pose proof (Hmin camel) as Hc; pose proof (Hmin pascal) as Hp;
         pose proof (Hmin upper_snake) as Hus; pose proof (Hmin lower_snake) as Hls;
         destruct style; simpl in *; try reflexivity; try congruence;
         try (specialize (Hc Ec); lia);
         try (specialize (Hp Ep); lia);
         try (specialize (Hus Eu); lia);
         try (specialize (Hls El); lia).
Qed.

Lemma named_items_total items style :
  items <> [] -> unanimous style items ->
  exists s0, getNamingStyleFromNamedItems items = Some s0.
Proof.
  intros Hne Hu. destruct items as [| i0 items]; [congruence |].
  unfold getNamingStyleFromNamedItems. simpl Nat.eqb. cbv iota.
  unfold unanimous in Hu.
  destruct (everyMatches Pattern.camelCase (i0 :: items)) eqn:Ec; [eauto |].
  destruct (everyMatches Pattern.pascalCase (i0 :: items)) eqn:Ep; [eauto |].
  destruct (everyMatches Pattern.upperSnakeCase (i0 :: items)) eqn:Eu; [eauto |].
  destruct (everyMatches Pattern.lowerSnakeCase (i0 :: items)) eqn:El; [eauto |].
  destruct style; unfold Pattern.forStyle in Hu; congruence.
Qed.

Lemma named_items_None items :
  getNamingStyleFromNamedItems items = None <->
  items = [] \/ forall style, ~ unanimous style items.
Proof.
  split.
  - intro H. destruct items as [| i0 items]; [left; reflexivity | right].
    intros style Hu.
    destruct (named_items_total (i0 :: items) style) as [s0 Hs0]; congruence.
  - intros [-> | Hno]; [reflexivity |].
    destruct (getNamingStyleFromNamedItems items) as [s0 |] eqn:E; [| reflexivity].
    apply named_items_Some in E as (_ & Hu & _). exfalso; eapply Hno; eauto.
Qed.

Lemma decides_iff value :
  decides value <->
  exists items style, value = Some items /\ getNamingStyleFromNamedItems items = Some style.
Proof.
  split.
  - intros (items & style & -> & Hne & Hu).
    destruct (getNamingStyleFromNamedItems items) as [s0 |] eqn:E; [eauto |].
    apply named_items_None in E as [E | E]; [congruence | exfalso; eapply E; eauto].
  - intros (items & style & -> & E).
    apply named_items_Some in E as (Hne & Hu & _). exists items, style; auto.
Qed.

(** The loop answers for the first category that decides. *)
Lemma detectedStyle_spec config ks :
  match detectedStyle config ks with
  | Some style =>
      exists before key after items,
        ks = (before ++ key :: after)%list /\
        (forall k, In k before -> ~ decides (configAt config k)) /\
        configAt config key = Some items /\
        getNamingStyleFromNamedItems items = Some style
  | None => forall k, In k ks -> ~ decides (configAt config k)
  end.
Proof.
  induction ks as [| key rest IH]; simpl.
  - intros k [].
  - destruct (configAt config key) as [value |] eqn:Ek.
    + destruct (getNamingStyleFromNamedItems value) as [s0 |] eqn:Es.
      * exists [], key, rest, value. simpl.
        split; [reflexivity | split; [intros k [] | auto]].
      * assert (Hkey : ~ decides (configAt config key)).
        { rewrite decides_iff, Ek. intros (items & style & Hv & Hs).
          inversion Hv; subst. congruence. }
        destruct (detectedStyle config rest) as [s1 |].
        -- destruct IH as (before & k1 & after & items & -> & Hb & Hk & Hs).
           exists (key :: before), k1, after, items. simpl.
           split; [reflexivity | split; [| auto]].
           intros k [<- | Hin]; auto.
        -- intros k [<- | Hin]; auto.
    + assert (Hkey : ~ decides (configAt config key)).
      { rewrite Ek. intros (items & style & Hv & _). discriminate. }
      destruct (detectedStyle config rest) as [s1 |].
      * destruct IH as (before & k1 & after & items & -> & Hb & Hk & Hs).
        exists (key :: before), k1, after, items. simpl.
        split; [reflexivity | split; [| auto]].
        intros k [<- | Hin]; auto.
      * intros k [<- | Hin]; auto.
Qed.

End ClassifierFacts.

(** ** Code units and strings *)

Module StringFacts.
Import Js Re ReFacts.

Ltac each_code_unit c :=
  destruct c as [[] [] [] [] [] [] [] []]; vm_compute; intros; congruence.

Lemma upper_not_space c : isUpper c = true -> Ascii.eqb c " " = false.
Proof. each_code_unit c. Qed.

Lemma upper_not_white c : isUpper c = true -> isWhiteSpace c = false.
Proof. each_code_unit c. Qed.

Lemma upper_is_alnum c : isUpper c = true -> alnum c = true.
Proof. each_code_unit c. Qed.

Lemma upper_lowered c : isUpper c = true -> isLower (lowerChar c) = true.
Proof. each_code_unit c. Qed.

Lemma upper_uppered c : isUpper c = true -> isUpper (upperChar c) = true.
Proof. each_code_unit c. Qed.

Lemma alnum_split c : alnum c = true -> isUpper c = false -> lowerOrDigit c = true.
Proof. each_code_unit c. Qed.

Lemma alnum_not_space c : alnum c = true -> Ascii.eqb c " " = false.
Proof. each_code_unit c. Qed.

Lemma alnum_not_white c : alnum c = true -> isWhiteSpace c = false.
Proof. each_code_unit c. Qed.

Lemma lowerOrDigit_alnum c : lowerOrDigit c = true -> alnum c = true.
Proof. each_code_unit c. Qed.

Lemma lowerOrDigit_lowered c : lowerOrDigit c = true -> lowerOrDigit (lowerChar c) = true.
Proof. each_code_unit c. Qed.

Lemma lowerOrDigit_uppered c : lowerOrDigit c = true -> upperOrDigit (upperChar c) = true.
Proof. each_code_unit c. Qed.

Lemma class_upper c : inClass [Pattern.AZ] c = isUpper c.
Proof. unfold inClass; simpl. apply orb_false_r. Qed.

Lemma class_lower c : inClass [Pattern.az] c = isLower c.
Proof. unfold inClass; simpl. apply orb_false_r. Qed.

Lemma class_alnum c : inClass [Pattern.az; Pattern.AZ; Pattern.d09] c = alnum c.
Proof.
  unfold inClass, alnum, isLower, isUpper, isDigit; simpl.
  rewrite orb_false_r, orb_assoc. reflexivity.
Qed.

Lemma class_upperOrDigit c : inClass [Pattern.AZ; Pattern.d09] c = upperOrDigit c.
Proof. unfold inClass, upperOrDigit, isUpper, isDigit; simpl. now rewrite orb_false_r. Qed.

Lemma class_lowerOrDigit c : inClass [Pattern.az; Pattern.d09] c = lowerOrDigit c.
Proof. unfold inClass, lowerOrDigit, isLower, isDigit; simpl. now rewrite orb_false_r. Qed.

Lemma allChars_app p s1 s2 :
  allChars p (s1 ++ s2) = allChars p s1 && allChars p s2.
Proof. induction s1; simpl; [reflexivity | rewrite IHs1; apply andb_assoc]. Qed.

Lemma allChars_impl (p q : ascii -> bool) s :
  (forall c, p c = true -> q c = true) -> allChars p s = true -> allChars q s = true.
Proof.
  intro Hpq. induction s as [| c s IH]; simpl; [auto |].
  intro H. apply andb_true_iff in H as [Hc Hs]. rewrite Hpq, IH; auto.
Qed.

Lemma allChars_ext (p q : ascii -> bool) s :
  (forall c, p c = q c) -> allChars p s = allChars q s.
Proof. intro Hpq. induction s as [| c s IH]; simpl; [auto | now rewrite Hpq, IH]. Qed.

Lemma allChars_mapChars (p q : ascii -> bool) f s :
  (forall c, p c = true -> q (f c) = true) ->
  allChars p s = true -> allChars q (mapChars f s) = true.
Proof.
  intro Hpq. induction s as [| c s IH]; simpl; [auto |].
  intro H. apply andb_true_iff in H as [Hc Hs]. rewrite Hpq, IH; auto.
Qed.

(** A starred class is a run of code units of the class. *)
Lemma Matches_Star_Class rs s :
  Matches (Star (Class rs)) s <-> allChars (inClass rs) s = true.
Proof.
  split.
  - intro H. remember (Star (Class rs)) as r eqn:Er.
    induction H; try discriminate; [reflexivity |].
    inversion Er; subst. inversion H; subst. simpl.
    rewrite IHMatches2; auto. now rewrite andb_true_r.
  - induction s as [| c s IH]; simpl; intro H.
    + constructor.
    + apply andb_true_iff in H as [Hc Hs].
      change (String c s) with (String c "" ++ s).
      constructor; [constructor |]; auto.
Qed.

Lemma Matches_Class_head rs r s :
  Matches (Seq (Class rs) r) s <->
  exists c s', s = String c s' /\ inClass rs c = true /\ Matches r s'.
Proof.
  split.
  - intro H. inversion H; subst.
    match goal with M : Matches (Class _) _ |- _ => inversion M; subst end.
    simpl. eauto.
  - intros (c & s' & -> & Hc & Hr).
    change (String c s') with (String c "" ++ s').
    constructor; [constructor |]; auto.
Qed.

Lemma Matches_mayContain r s : Matches r s -> allChars (mayContain r) s = true.
Proof.
  induction 1; simpl; auto.
  - now rewrite Ascii.eqb_refl.
  - now rewrite H.
  - rewrite allChars_app. apply andb_true_iff; split.
    + eapply allChars_impl; [| exact IHMatches1]. intros c Hc; simpl. now rewrite Hc.
    + eapply allChars_impl; [| exact IHMatches2]. intros c Hc; simpl.
      rewrite Hc. apply orb_true_r.
  - eapply allChars_impl; [| exact IHMatches]. intros c Hc; simpl. now rewrite Hc.
  - eapply allChars_impl; [| exact IHMatches]. intros c Hc; simpl.
    rewrite Hc. apply orb_true_r.
  - rewrite allChars_app. apply andb_true_iff; split; [| exact IHMatches2].
    eapply allChars_impl; [| exact IHMatches1]. intros c Hc; exact Hc.
Qed.

(** Every pattern of the classifier consumes letters, digits and
    underscores only. *)
Lemma style_alphabet style c :
  mayContain (Pattern.forStyle style) c = true -> wordChar c = true.
Proof. destruct style; each_code_unit c. Qed.

Lemma trimEnd_clean s : endsClean s = true -> trimEnd s = s.
Proof.
  induction s as [| c s IH]; simpl; [auto |].
  destruct s as [| c' s'].
  - simpl. intro H. apply negb_true_iff in H. now rewrite H.
  - intro H. rewrite (IH H). reflexivity.
Qed.

Lemma split_not_nil sep s : split sep s <> [].
Proof.
  induction s as [| c s IH]; simpl; [discriminate |].
  destruct (Ascii.eqb c sep); [discriminate |].
  destruct (split sep s); [congruence | discriminate].
Qed.

Lemma join_cons sep p q ps : join sep (p :: q :: ps) = p ++ sep ++ join sep (q :: ps).
Proof. reflexivity. Qed.

End StringFacts.

(** ** Name transcoder *)

Module TranscoderFacts.
Import Js Re ReFacts StringFacts.

Lemma upper_lowered_body c : isUpper c = true -> lowerOrDigit (lowerChar c) = true.
Proof. each_code_unit c. Qed.

Lemma upper_uppered_body c : isUpper c = true -> upperOrDigit (upperChar c) = true.
Proof. each_code_unit c. Qed.

Lemma join_prefixed sep ps : forall w, join sep (w :: ps) = w ++ prefixed sep ps.
Proof.
  induction ps as [| q ps IH]; intro w.
  - simpl. now rewrite append_nil_r.
  - rewrite join_cons, IH. reflexivity.
Qed.

(** A well-formed PascalCase name, as the classifier's pattern reads it. *)
Lemma pascal_shape nm :
  test Pattern.pascalCase nm = true ->
  exists c0 rest, nm = String c0 rest /\ isUpper c0 = true /\ allChars alnum rest = true.
Proof.
  intro H. apply test_Matches in H. unfold Pattern.pascalCase in H.
  apply Matches_Class_head in H as (c0 & rest & -> & Hc & Hr).
  rewrite class_upper in Hc. apply Matches_Star_Class in Hr.
  rewrite (allChars_ext _ _ _ class_alnum) in Hr. eauto.
Qed.

Lemma spaced_endsClean t : forall c,
  isWhiteSpace c = false -> allChars alnum t = true ->
  endsClean (String c (spaceBeforeUpper t)) = true.
Proof.
  induction t as [| d t IH]; intros c Hc Ht.
  - simpl. now rewrite Hc.
  - simpl in Ht. apply andb_true_iff in Ht as [Hd Ht].
    pose proof (IH d (alnum_not_white d Hd) Ht) as IHd.
    simpl. destruct (isUpper d); exact IHd.
Qed.

Lemma split_spaced t :
  allChars alnum t = true ->
  exists p ps, split " " (spaceBeforeUpper t) = p :: ps /\
               allChars lowerOrDigit p = true /\ forallb isWord ps = true.
Proof.
  induction t as [| d t IH]; intro Ht.
  - exists "", []. auto.
  - simpl in Ht. apply andb_true_iff in Ht as [Hd Ht].
    destruct (IH Ht) as (p & ps & Hs & Hp & Hps).
    simpl. destruct (isUpper d) eqn:Hu.
    + simpl. rewrite (upper_not_space d Hu), Hs.
      exists "", (String d p :: ps). simpl. rewrite Hu, Hp, Hps. auto.
    + simpl. rewrite (alnum_not_space d Hd), Hs.
      exists (String d p), ps. simpl. rewrite (alnum_split d Hd Hu), Hp. auto.
Qed.

(** The parts of a PascalCase name are its words. *)
Lemma parts_of_pascal c0 rest :
  isUpper c0 = true -> allChars alnum rest = true ->
  exists p ps,
    split " " (trim (spaceBeforeUpper (String c0 rest))) = String c0 p :: ps /\
    allChars lowerOrDigit p = true /\ forallb isWord ps = true.
Proof.
  intros Hc Hr. destruct (split_spaced rest Hr) as (p & ps & Hs & Hp & Hps).
  exists p, ps. split; [| auto].
  unfold trim. simpl spaceBeforeUpper. rewrite Hc.
  assert (Hstart : trimStart (String " " (String c0 (spaceBeforeUpper rest)))
                   = String c0 (spaceBeforeUpper rest)).
  { simpl. now rewrite (upper_not_white c0 Hc). }
  rewrite Hstart, trimEnd_clean by (apply spaced_endsClean; auto using upper_not_white).
  simpl. now rewrite (upper_not_space c0 Hc), Hs.
Qed.

Lemma words_concat ps :
  forallb isWord ps = true -> allChars alnum (prefixed "" ps) = true.
Proof.
  induction ps as [| w ps IH]; simpl; [auto |].
  intro H. apply andb_true_iff in H as [Hw Hps].
  rewrite allChars_app, (IH Hps), andb_true_r.
  destruct w as [| c t]; [discriminate |].
  simpl in *. apply andb_true_iff in Hw as [Hc Ht].
  rewrite (upper_is_alnum c Hc). simpl.
  eapply allChars_impl; [| exact Ht]. apply lowerOrDigit_alnum.
Qed.

(** Words, mapped into a class [body] code unit by code unit, joined
    behind underscores, are the tail of a snake pattern. *)
Lemma snake_tail body f ps :
  (forall c, isUpper c = true -> inClass body (f c) = true) ->
  (forall c, lowerOrDigit c = true -> inClass body (f c) = true) ->
  forallb isWord ps = true ->
  Matches (Star (Seq (Chr "_") (Plus (Class body))))
          (prefixed "_" (map (mapChars f) ps)).
Proof.
  intros Hup Hlow. induction ps as [| w ps IH]; simpl; intro H.
  - constructor.
  - apply andb_true_iff in H as [Hw Hps].
    destruct w as [| c t]; [discriminate |].
    simpl in Hw. apply andb_true_iff in Hw as [Hc Ht].
    change (String "_" (mapChars f (String c t) ++ prefixed "_" (map (mapChars f) ps)))
      with (String "_" (mapChars f (String c t)) ++ prefixed "_" (map (mapChars f) ps)).
    constructor; [| auto].
    change (String "_" (mapChars f (String c t)))
      with (String "_" "" ++ mapChars f (String c t)).
    constructor; [constructor |].
    simpl. apply Matches_Class_head. exists (f c), (mapChars f t).
    split; [reflexivity | split; [auto |]].
    apply Matches_Star_Class. eapply allChars_mapChars; [| exact Ht]. auto.
Qed.

Lemma snake_whole hd body f c0 p ps :
  inClass hd (f c0) = true ->
  (forall c, isUpper c = true -> inClass body (f c) = true) ->
  (forall c, lowerOrDigit c = true -> inClass body (f c) = true) ->
  allChars lowerOrDigit p = true -> forallb isWord ps = true ->
  Matches (Seq (Class hd)
             (Seq (Star (Class body)) (Star (Seq (Chr "_") (Plus (Class body))))))
          (join "_" (map (mapChars f) (String c0 p :: ps))).
Proof.
  intros Hhd Hup Hlow Hp Hps. simpl map. rewrite join_prefixed. simpl.
  apply Matches_Class_head. exists (f c0), (mapChars f p ++ prefixed "_" (map (mapChars f) ps)).
  split; [reflexivity | split; [auto |]].
  constructor.
  - apply Matches_Star_Class. eapply allChars_mapChars; [| exact Hp]. auto.
  - apply snake_tail; auto.
Qed.

Lemma styleNames_test nm style :
  test Pattern.pascalCase nm = true ->
  test (Pattern.forStyle style) (styleNames nm style) = true.
Proof.
  intro Hnm. destruct style; [| exact Hnm | |].
  - (* camel *)
    destruct (pascal_shape nm Hnm) as (c0 & rest & -> & Hc & Hr).
    destruct (parts_of_pascal c0 rest Hc Hr) as (p & ps & Hparts & Hp & Hps).
    unfold styleNames. rewrite Hparts.
    apply test_Matches. unfold Pattern.forStyle, Pattern.camelCase.
    destruct ps as [| q ps'].
    + simpl. rewrite append_nil_r. apply Matches_Class_head.
      exists (lowerChar c0), (mapChars lowerChar p).
      split; [reflexivity |]. rewrite class_lower. split; [auto using upper_lowered |].
      apply Matches_Star_Class. rewrite (allChars_ext _ _ _ class_alnum).
      eapply allChars_mapChars; [| exact Hp].
      intros c H. apply lowerOrDigit_alnum, lowerOrDigit_lowered, H.
    + rewrite join_prefixed. simpl toLowerCase. apply Matches_Class_head.
      exists (lowerChar c0), (mapChars lowerChar p ++ (q ++ prefixed "" ps')).
      split; [reflexivity |]. rewrite class_lower. split; [auto using upper_lowered |].
      apply Matches_Star_Class. rewrite (allChars_ext _ _ _ class_alnum).
      rewrite allChars_app. apply andb_true_iff; split.
      * eapply allChars_mapChars; [| exact Hp].
        intros c H. apply lowerOrDigit_alnum, lowerOrDigit_lowered, H.
      * exact (words_concat (q :: ps') Hps).
  - (* upper_snake *)
    destruct (pascal_shape nm Hnm) as (c0 & rest & -> & Hc & Hr).
    destruct (parts_of_pascal c0 rest Hc Hr) as (p & ps & Hparts & Hp & Hps).
    unfold styleNames. rewrite Hparts.
    apply test_Matches. unfold Pattern.forStyle, Pattern.upperSnakeCase, toUpperCase.
    apply snake_whole; auto.
    + rewrite class_upper. auto using upper_uppered.
    + intros c H. rewrite class_upperOrDigit. auto using upper_uppered_body.
    + intros c H. rewrite class_upperOrDigit. auto using lowerOrDigit_uppered.
  - (* lower_snake *)
    destruct (pascal_shape nm Hnm) as (c0 & rest & -> & Hc & Hr).
    destruct (parts_of_pascal c0 rest Hc Hr) as (p & ps & Hparts & Hp & Hps).
    unfold styleNames. rewrite Hparts.
    apply test_Matches. unfold Pattern.forStyle, Pattern.lowerSnakeCase, toLowerCase.
    apply snake_whole; auto.
    + rewrite class_lower. auto using upper_lowered.
    + intros c H. rewrite class_lowerOrDigit. auto using upper_lowered_body.
    + intros c H. rewrite class_lowerOrDigit. auto using lowerOrDigit_lowered.
Qed.

End TranscoderFacts.

(** ** Runs of the script *)

Module ScriptFacts.

Lemma forOf_emit {A} (f : A -> Event) items w :
  forOf items (fun item => emit (f item)) w = (map f items, inl tt).
Proof.
  induction items as [| item items IH]; [reflexivity |].
  cbn [forOf map]. unfold bind at 1. rewrite IH. reflexivity.
Qed.

Lemma style_run config w :
  getNamingStyleFromOtherBindings config w
  = (styleEvents config w,
     match resolvedStyle config w with
     | Some s => inl s
     | None => inr (exited 1)
     end).
Proof.
  unfold getNamingStyleFromOtherBindings, styleEvents, resolvedStyle.
  destruct (detectedStyle config keys); [reflexivity |].
  unfold select, bind, emit, ask, assertNotCancelled, stylePrompt. simpl.
  destruct (selectAnswer w); reflexivity.
Qed.

(** Every run of [declare] on a list of names. *)
Lemma declare_run config items w :
  declare config (Some items) w =
  match resolvedStyle config w with
  | None => ((report items ++ styleEvents config w)%list, inr (exited 1))
  | Some style =>
      let shown := (report items ++ styleEvents config w
                    ++ [prompt_confirm (confirmMessage (length items))])%list in
      match confirmAnswer w with
      | Cancelled => (shown, inr (exited 1))
      | Answered false => (shown, inr (exited 0))
      | Answered true =>
          match configPath config with
          | None => (shown, inr (thrown "No config path found"))
          | Some path =>
              ((shown ++ [patchConfig path (patchOf items style (toISOString w))])%list,
               inl tt)
          end
      end
  end.
Proof.
  unfold declare, bind. rewrite forOf_emit, style_run. unfold report.
  unfold emit, confirm, bind, ask, emit, assertNotCancelled, processExit, halt, ret, orBail, bail, halt.
  simpl.
  destruct (resolvedStyle config w) as [style |]; simpl;
    [destruct (confirmAnswer w) as [| [|]]; simpl; [| destruct (configPath config) |] |];
    simpl; repeat (rewrite <- app_assoc; simpl); rewrite ?app_nil_r; reflexivity.
Qed.

Lemma defaultTypeOf_run config w :
  exists r, defaultTypeOf config w = ([], r) /\
            match r with inr (exited _) => False | _ => True end.
Proof.
  unfold defaultTypeOf, createTypescript, findTypeScriptPath.
  unfold bind, ask, ret, orBail, bail, halt. simpl.
  destruct (Nat.ltb 0 (String.length (Js.trim (nodeStdout w)))); simpl; [| eexists; split; [reflexivity | exact I]].
  destruct (main config); simpl; [| eexists; split; [reflexivity | exact I]].
  destruct (Ts.getSourceFile (program w) "/declare/resolver.ts") as [sf |]; simpl; [| eexists; split; [reflexivity | exact I]].
  destruct (Ts.symbol sf) as [ms |]; simpl; [| eexists; split; [reflexivity | exact I]].
  destruct (find _ (Ts.exports ms)); simpl; eexists; (split; [reflexivity | exact I]).
Qed.

(** A run either stops in the setup with an error and nothing shown, or
    goes through [declare] with the net-new names. *)
Lemma script_unfold w checker defaultType :
  defaultTypeOf (readConfig w) w = ([], inl (checker, defaultType)) ->
  script w = declare (readConfig w) (netNewItems (readConfig w) checker defaultType) w.
Proof.
  intro Hd. unfold script, bind, ask. cbv beta iota zeta. rewrite Hd.
  cbv beta iota zeta delta [fst snd].
  destruct (declare (readConfig w) _ w). reflexivity.
Qed.

Lemma script_cases w :
  (trace w = [] /\ exists message, outcome w = inr (thrown message)) \/
  (exists items, netNew w (Some items) /\
                 script w = declare (readConfig w) (Some items) w).
Proof.
  destruct (defaultTypeOf_run (readConfig w) w) as (r & Hr & Hok).
  destruct r as [[checker defaultType] | [code | message]]; [| contradiction |].
  - unfold trace, outcome. rewrite (script_unfold w checker defaultType Hr).
    destruct (netNewItems (readConfig w) checker defaultType) as [items |] eqn:Hn.
    + right. exists items. split; [| reflexivity].
      exists checker, defaultType. auto.
    + left. split; [reflexivity | eexists; reflexivity].
  - left. unfold trace, outcome, script, bind, ask. cbv beta iota zeta. rewrite Hr.
    split; [reflexivity | eexists; reflexivity].
Qed.

Lemma netNew_script w items :
  netNew w items -> script w = declare (readConfig w) items w.
Proof.
  intros (checker & defaultType & Hd & Hn).
  rewrite (script_unfold w checker defaultType Hd), Hn. reflexivity.
Qed.

Lemma report_quiet items e :
  In e (report items) -> isPatch e = false /\ isPrompt e = false.
Proof.
  unfold report. intros [<- | H]; [auto |].
  apply in_app_iff in H as [H | [<- | []]]; [| auto].
  apply in_map_iff in H as (item & <- & _). auto.
Qed.

Lemma styleEvents_quiet config w e :
  In e (styleEvents config w) ->
  isPatch e = false /\
  (isPrompt e = true -> e = stylePrompt /\ detectedStyle config keys = None).
Proof.
  unfold styleEvents. destruct (detectedStyle config keys).
  - intros [<- | []]. split; [reflexivity | discriminate].
  - intros [<- | []]. auto.
Qed.

Lemma filter_none {A} (f : A -> bool) l :
  (forall x, In x l -> f x = false) -> filter f l = [].
Proof.
  induction l as [| x l IH]; simpl; intro H; [reflexivity |].
  rewrite (H x (or_introl eq_refl)). apply IH. auto.
Qed.

Lemma patchCalls_quiet config w items :
  patchCalls (report items ++ styleEvents config w) = [].
Proof.
  apply filter_none. intros e H. apply in_app_iff in H as [H | H].
  - apply (report_quiet items e H).
  - apply (styleEvents_quiet config w e H).
Qed.

Lemma quiet_events config w items e :
  In e (report items ++ styleEvents config w) ->
  isPatch e = false /\ (forall message, e <> prompt_confirm message) /\
  (forall message options, e = prompt_select message options ->
     e = stylePrompt /\ detectedStyle config keys = None).
Proof.
  intro H. apply in_app_iff in H as [H | H].
  - destruct (report_quiet items e H) as [Hp Hq].
    split; [auto | split].
    + intros message ->. discriminate.
    + intros message options ->. discriminate.
  - destruct (styleEvents_quiet config w e H) as [Hp Hq].
    split; [auto | split].
    + intros message ->. destruct (Hq eq_refl) as [Habs _]. discriminate.
    + intros message options ->. apply Hq. reflexivity.
Qed.

(** The shapes a run can take. *)
Lemma script_shapes w :
  (trace w = [] /\ exists message, outcome w = inr (thrown message)) \/
  exists items,
    netNew w (Some items) /\
    let config := readConfig w in
    let quiet := (report items ++ styleEvents config w)%list in
    let shown := (quiet ++ [prompt_confirm (confirmMessage (length items))])%list in
    (resolvedStyle config w = None /\ trace w = quiet /\ outcome w = inr (exited 1)) \/
    exists style,
      resolvedStyle config w = Some style /\
      ((confirmAnswer w = Cancelled /\ trace w = shown /\ outcome w = inr (exited 1)) \/
       (confirmAnswer w = Answered false /\ trace w = shown /\ outcome w = inr (exited 0)) \/
       (confirmAnswer w = Answered true /\ configPath config = None /\ trace w = shown /\
        outcome w = inr (thrown "No config path found")) \/
       (exists path,
          confirmAnswer w = Answered true /\ configPath config = Some path /\
          trace w = (shown ++ [patchConfig path (patchOf items style (toISOString w))])%list /\
          outcome w = inl tt)).
Proof.
  destruct (script_cases w) as [H | (items & Hnet & Hrun)]; [left; exact H | right].
  exists items. split; [exact Hnet |]. cbv zeta.
  unfold trace, outcome. rewrite Hrun, declare_run.
  destruct (resolvedStyle (readConfig w) w) as [style |]; [right | left; auto].
  exists style. split; [reflexivity |]. cbv zeta.
  destruct (confirmAnswer w) as [| [|]].
  - left. repeat split; cbn [fst snd]; rewrite <- ?app_assoc; reflexivity.
  - destruct (configPath (readConfig w)) as [path |].
    + right; right; right. exists path.
      repeat split; cbn [fst snd]; rewrite <- ?app_assoc; reflexivity.
    + right; right; left.
      repeat split; cbn [fst snd]; rewrite <- ?app_assoc; reflexivity.
  - right; left. repeat split; cbn [fst snd]; rewrite <- ?app_assoc; reflexivity.
Qed.

Lemma resolvedStyle_None config w :
  resolvedStyle config w = None ->
  detectedStyle config keys = None /\ selectAnswer w = Cancelled /\
  styleEvents config w = [stylePrompt].
Proof.
  unfold resolvedStyle, styleEvents.
  destruct (detectedStyle config keys); [discriminate |].
  destruct (selectAnswer w); [auto | discriminate].
Qed.

Lemma resolvedStyle_prompt config w style :
  resolvedStyle config w = Some style -> detectedStyle config keys = None ->
  selectAnswer w = Answered style.
Proof.
  unfold resolvedStyle. intros H Hd. rewrite Hd in H.
  destruct (selectAnswer w); congruence.
Qed.

End ScriptFacts.

(** ** Single words: where the patterns overlap *)

Module OverlapFacts.
Import Js Re ReFacts StringFacts.

Lemma upper_not_lower c : isUpper c = true -> isLower c = false.
Proof. each_code_unit c. Qed.

Lemma upperOrDigit_alnum c : upperOrDigit c = true -> alnum c = true.
Proof. each_code_unit c. Qed.

Lemma single_upper_word s :
  test singleUpperWord s = true ->
  test Pattern.pascalCase s = true /\ test Pattern.upperSnakeCase s = true /\
  test Pattern.camelCase s = false.
Proof.
  intro H. apply test_Matches, Matches_Class_head in H as (c & s' & -> & Hc & Hs).
  split; [| split].
  - apply test_Matches, Matches_Class_head. exists c, s'.
    split; [reflexivity | split; [exact Hc |]].
    apply Matches_Star_Class. apply Matches_Star_Class in Hs.
    eapply allChars_impl; [| exact Hs].
    intros d. rewrite class_upperOrDigit, class_alnum. apply upperOrDigit_alnum.
  - apply test_Matches, Matches_Class_head. exists c, s'.
    split; [reflexivity | split; [exact Hc |]].
    rewrite <- (append_nil_r s'). constructor; [exact Hs | constructor].
  - destruct (test Pattern.camelCase (String c s')) eqn:E; [| reflexivity].
    apply test_Matches, Matches_Class_head in E as (c' & s'' & Heq & Hc' & _).
    inversion Heq; subst. rewrite class_upper in Hc. rewrite class_lower in Hc'.
    rewrite (upper_not_lower _ Hc) in Hc'. discriminate.
Qed.

Lemma single_lower_word s :
  test singleLowerWord s = true ->
  test Pattern.camelCase s = true /\ test Pattern.lowerSnakeCase s = true.
Proof.
  intro H. apply test_Matches, Matches_Class_head in H as (c & s' & -> & Hc & Hs).
  split.
  - apply test_Matches, Matches_Class_head. exists c, s'.
    split; [reflexivity | split; [exact Hc |]].
    apply Matches_Star_Class. apply Matches_Star_Class in Hs.
    eapply allChars_impl; [| exact Hs].
    intros d. rewrite class_lowerOrDigit, class_alnum. apply lowerOrDigit_alnum.
  - apply test_Matches, Matches_Class_head. exists c, s'.
    split; [reflexivity | split; [exact Hc |]].
    rewrite <- (append_nil_r s'). constructor; [exact Hs | constructor].
Qed.

Lemma everyMatches_impl (r1 r2 : regex) items :
  (forall s, test r1 s = true -> test r2 s = true) ->
  everyMatches r1 items = true -> everyMatches r2 items = true.
Proof.
  intro Himp. unfold everyMatches. rewrite !forallb_forall. auto.
Qed.

End OverlapFacts.

(** * The statements of the specification *)

(** ** The classifier against the specification's wording *)

Module SpecFacts.
Import ReFacts ClassifierFacts.

Lemma allConsistent_unanimous style items :
  Spec.allConsistent style items <-> unanimous style items.
Proof.
  unfold Spec.allConsistent, unanimous, everyMatches.
  rewrite Forall_forall, forallb_forall.
  split; intros H item Hin; apply test_Matches, H, Hin.
Qed.

Lemma common_decides its : Spec.common its <-> decides (Some its).
Proof.
  unfold Spec.common, decides. split.
  - intros (Hne & s & Hs). exists its, s.
    split; [reflexivity | split; [exact Hne | apply allConsistent_unanimous, Hs]].
  - intros (items & s & Heq & Hne & Hu). inversion Heq; subst.
    split; [exact Hne | exists s; apply allConsistent_unanimous, Hu].
Qed.

Lemma firstPattern_named_items items style :
  Spec.firstPattern items style <-> getNamingStyleFromNamedItems items = Some style.
Proof.
  rewrite named_items_Some. unfold Spec.firstPattern.
  split; intros (Hne & Hs & Hmin); (split; [exact Hne | split]).
  - apply allConsistent_unanimous, Hs.
  - intros s' Hs'. apply Hmin, allConsistent_unanimous, Hs'.
  - apply allConsistent_unanimous, Hs.
  - intros s' Hs'. apply Hmin, allConsistent_unanimous, Hs'.
Qed.

Lemma rank_same a b : rank a = rank b -> a = b.
Proof. destruct a, b; simpl; intro H; congruence. Qed.

Lemma firstPattern_functional items s1 s2 :
  Spec.firstPattern items s1 -> Spec.firstPattern items s2 -> s1 = s2.
Proof.
  intros (_ & H1 & M1) (_ & H2 & M2). apply rank_same.
  pose proof (M1 s2 H2). pose proof (M2 s1 H1). lia.
Qed.

Lemma firstPattern_common items style : Spec.firstPattern items style -> Spec.common items.
Proof. intros (Hne & Hs & _). split; [exact Hne | eauto]. Qed.

(** The loop over any list of keys, read on the categories they name. *)
Lemma loop_reading config ks :
  match detectedStyle config ks with
  | Some style => Spec.firstCommon (map (configAt config) ks) style
  | None => Spec.undetermined (map (configAt config) ks)
  end.
Proof.
  pose proof (detectedStyle_spec config ks) as H.
  destruct (detectedStyle config ks) as [style |].
  - destruct H as (before & key & after & items & -> & Hb & Hk & Hs).
    exists (map (configAt config) before), items, (map (configAt config) after).
    split; [| split].
    + rewrite map_app. simpl. now rewrite Hk.
    + intros its Hin. apply in_map_iff in Hin as (k & Hk' & Hin).
      rewrite common_decides, <- Hk'. apply Hb, Hin.
    + apply firstPattern_named_items, Hs.
  - intros its Hin. apply in_map_iff in Hin as (k & Hk' & Hin).
    rewrite common_decides, <- Hk'. apply H, Hin.
Qed.

Lemma firstCommon_functional cats s1 s2 :
  Spec.firstCommon cats s1 -> Spec.firstCommon cats s2 -> s1 = s2.
Proof.
  intros (b1 & i1 & a1 & -> & Hb1 & Hp1) (b2 & i2 & a2 & Heq & Hb2 & Hp2).
  revert b2 Heq Hb2. induction b1 as [| c b1 IH]; intros [| c' b2] Heq Hb2;
    simpl in Heq; inversion Heq; subst.
  - eapply firstPattern_functional; eauto.
  - exfalso. apply (Hb2 i1); [left; reflexivity | eapply firstPattern_common; eauto].
  - exfalso. apply (Hb1 i2); [left; reflexivity | eapply firstPattern_common; eauto].
  - apply (IH (fun its Hin => Hb1 its (or_intror Hin)) b2); [assumption |].
    intros its Hin. apply Hb2. right. exact Hin.
Qed.

Lemma firstCommon_determined cats style :
  Spec.firstCommon cats style -> ~ Spec.undetermined cats.
Proof.
  intros (before & items & after & -> & _ & Hp) Hun.
  apply (Hun items); [| eapply firstPattern_common; eauto].
  apply in_app_iff. right. left. reflexivity.
Qed.

Lemma exactlyOne_firstPattern items style :
  Spec.exactlyOne items style -> Spec.firstPattern items style.
Proof.
  intros (Hne & Hs & Honly). split; [exact Hne | split; [exact Hs |]].
  intros s' Hs'. rewrite (Honly s' Hs'). lia.
Qed.

Lemma firstExactlyOne_functional cats s1 s2 :
  Spec.firstExactlyOne cats s1 -> Spec.firstExactlyOne cats s2 -> s1 = s2.
Proof.
  intros (b1 & i1 & a1 & -> & Hb1 & Hp1) (b2 & i2 & a2 & Heq & Hb2 & Hp2).
  revert b2 Heq Hb2. induction b1 as [| c b1 IH]; intros [| c' b2] Heq Hb2;
    simpl in Heq; inversion Heq; subst.
  - destruct Hp1 as (_ & H1 & _), Hp2 as (_ & _ & Honly). apply Honly, H1.
  - exfalso. apply (Hb2 i1 s1); [left; reflexivity | exact Hp1].
  - exfalso. apply (Hb1 i2 s2); [left; reflexivity | exact Hp2].
  - apply (IH (fun its s Hin => Hb1 its s (or_intror Hin)) b2); [assumption |].
    intros its s Hin. apply Hb2. right. exact Hin.
Qed.

Lemma consistent_test style nm :
  Spec.allConsistent style [{| binding := nm |}] -> Re.test (Pattern.forStyle style) nm = true.
Proof. intro H. inversion H; subst. apply test_Matches. assumption. Qed.

Lemma test_consistent style nm :
  Re.test (Pattern.forStyle style) nm = true -> Spec.allConsistent style [{| binding := nm |}].
Proof. intro H. constructor; [apply test_Matches, H | constructor]. Qed.

End SpecFacts.

(** Counterexample to C2 as stated: the key-value names ["foo"] are
    consistent with two patterns, camel and lower_snake, and the service
    names ["KV_ONE"] are the first that are consistent with exactly one,
    upper_snake; the classifier answers camel, for the key-value category. *)
Lemma exactly_one_pattern_is_not_required :
  Spec.firstExactlyOne (Spec.categories overlapConfig) upper_snake /\
  detectedStyle overlapConfig keys = Some camel /\
  getNamingStyleFromOtherBindings overlapConfig
    (withConfig overlapConfig
       (sampleWorld (Ts.StringLiteral "Counter") [] [] Cancelled Cancelled))
  = ([console_info
        "Detected bindings with camelCase naming style, using that for Durable Objects"],
     inl camel) /\
  ~ Spec.firstExactlyOne (Spec.categories overlapConfig) camel.
Proof.
  assert (Hfoo : forall its s, In (Some its) [Some [{| binding := "foo" |}]] ->
                               ~ Spec.exactlyOne its s).
  { intros its s [Heq | []] (_ & _ & Honly). inversion Heq; subst.
    pose proof (Honly camel (SpecFacts.test_consistent camel "foo" eq_refl)).
    pose proof (Honly lower_snake (SpecFacts.test_consistent lower_snake "foo" eq_refl)).
    congruence. }
  assert (Hkv : Spec.exactlyOne [{| binding := "KV_ONE" |}] upper_snake).
  { split; [discriminate | split].
    - apply SpecFacts.test_consistent. reflexivity.
    - intros s' Hs'. apply SpecFacts.consistent_test in Hs'.
      destruct s'; vm_compute in Hs'; congruence. }
  assert (Hfirst : Spec.firstExactlyOne (Spec.categories overlapConfig) upper_snake).
  { exists [Some [{| binding := "foo" |}]], [{| binding := "KV_ONE" |}],
      [None; Some []].
    split; [reflexivity | split; [exact Hfoo | exact Hkv]]. }
  split; [exact Hfirst | split; [reflexivity | split; [reflexivity |]]].
  intro Hcamel.
  pose proof (SpecFacts.firstExactlyOne_functional _ _ _ Hcamel Hfirst). discriminate.
Qed.

(** C2, amended: with the binding categories taken in the order
    kv_namespaces, services, d1_databases, vectorize, the classifier answers
    for the first category that is present, has a binding and whose binding
    names all have a pattern in common, and it answers the first pattern
    they have in common, in the order camel, pascal, upper_snake,
    lower_snake, which is the one pattern when the names are consistent with
    exactly one; an absent category and one with zero bindings are passed
    over; when no category has a common pattern, or no bindings exist at
    all, the classifier is undetermined and the style prompt is shown. *)
Theorem classifier_first_common_pattern (config : Config) (w : World) :
  (forall style,
     detectedStyle config keys = Some style <->
     Spec.firstCommon (Spec.categories config) style) /\
  (detectedStyle config keys = None <-> Spec.undetermined (Spec.categories config)) /\
  (forall items style,
     Spec.exactlyOne items style -> getNamingStyleFromNamedItems items = Some style) /\
  (forall style,
     Spec.firstCommon (Spec.categories config) style ->
     getNamingStyleFromOtherBindings config w
     = ([console_info ("Detected bindings with " ++ dim w (namingStyleDisplayNames style)
                       ++ " naming style, using that for Durable Objects")],
        inl style)) /\
  (Spec.undetermined (Spec.categories config) ->
   getNamingStyleFromOtherBindings config w
   = ([stylePrompt],
      match selectAnswer w with
      | Answered style => inl style
      | Cancelled => inr (exited 1)
      end)).
Proof.
  pose proof (SpecFacts.loop_reading config keys) as Hloop.
  change (map (configAt config) keys) with (Spec.categories config) in Hloop.
  assert (Hsome : forall style,
             detectedStyle config keys = Some style <->
             Spec.firstCommon (Spec.categories config) style).
  { intro style. split.
    - intro H. rewrite H in Hloop. exact Hloop.
    - intro H. destruct (detectedStyle config keys) as [s0 |].
      + f_equal. eapply SpecFacts.firstCommon_functional; eauto.
      + exfalso. eapply SpecFacts.firstCommon_determined; eauto. }
  assert (Hnone : detectedStyle config keys = None <->
                  Spec.undetermined (Spec.categories config)).
  { split.
    - intro H. rewrite H in Hloop. exact Hloop.
    - intro H. destruct (detectedStyle config keys) as [s0 |]; [| reflexivity].
      exfalso. eapply SpecFacts.firstCommon_determined; eauto. }
  split; [exact Hsome | split; [exact Hnone | split; [| split]]].
  - intros items style H.
    apply SpecFacts.firstPattern_named_items, SpecFacts.exactlyOne_firstPattern, H.
  - intros style H. apply Hsome in H.
    rewrite ScriptFacts.style_run. unfold styleEvents, resolvedStyle. rewrite H.
    reflexivity.
  - intro H. apply Hnone in H.
    rewrite ScriptFacts.style_run. unfold styleEvents, resolvedStyle. rewrite H.
    destruct (selectAnswer w); reflexivity.
Qed.

(** Witness for C2: the key-value names ["KV_ONE"; "KV_TWO"] are
    consistent with upper_snake only, and that is the answer. *)
Lemma classifier_first_common_pattern_witness :
  getNamingStyleFromNamedItems (itemsOf ["KV_ONE"; "KV_TWO"]) = Some upper_snake.
Proof.
  apply (proj1 (proj2 (proj2 (classifier_first_common_pattern overlapConfig
           (sampleWorld (Ts.StringLiteral "Counter") [] [] Cancelled Cancelled))))
           (itemsOf ["KV_ONE"; "KV_TWO"]) upper_snake).
  split; [discriminate | split].
  - repeat constructor; apply ReFacts.test_Matches; reflexivity.
  - intros s' Hs'. inversion Hs' as [| item rest Hm _]; subst.
    apply ReFacts.test_Matches in Hm. destruct s'; vm_compute in Hm; congruence.
Defined.

(** C9: the classifier answers the first pattern, in the order camel,
    pascal, upper_snake, lower_snake, that all names of a nonempty category
    pass; so names of one upper-case word each, which pass both the pascal
    and the upper_snake pattern, are classified pascal (as is ["FOO"]), and
    names of one lower-case word each, which pass both the camel and the
    lower_snake pattern, are classified camel (as is ["foo"]). *)
Theorem overlap_resolved_by_order :
  (forall items style,
     getNamingStyleFromNamedItems items = Some style <->
     items <> [] /\ unanimous style items /\
     (forall s', unanimous s' items -> rank style <= rank s')) /\
  (forall items,
     items <> [] -> everyMatches singleUpperWord items = true ->
     unanimous pascal items /\ unanimous upper_snake items /\
     getNamingStyleFromNamedItems items = Some pascal) /\
  (forall items,
     items <> [] -> everyMatches singleLowerWord items = true ->
     unanimous camel items /\ unanimous lower_snake items /\
     getNamingStyleFromNamedItems items = Some camel) /\
  getNamingStyleFromNamedItems [{| binding := "FOO" |}] = Some pascal /\
  getNamingStyleFromNamedItems [{| binding := "foo" |}] = Some camel.
Proof.
  split; [exact ClassifierFacts.named_items_Some |].
  split; [| split; [| split; reflexivity]].
  - intros items Hne Hall.
    assert (Hp : unanimous pascal items).
    { eapply OverlapFacts.everyMatches_impl; [| exact Hall].
      intros s Hs. apply OverlapFacts.single_upper_word, Hs. }
    assert (Hu : unanimous upper_snake items).
    { eapply OverlapFacts.everyMatches_impl; [| exact Hall].
      intros s Hs. apply OverlapFacts.single_upper_word, Hs. }
    split; [exact Hp | split; [exact Hu |]].
    apply ClassifierFacts.named_items_Some. split; [exact Hne | split; [exact Hp |]].
    intros s' Hs'. destruct s'; simpl; try lia.
    destruct items as [| i0 items]; [congruence |].
    unfold unanimous in Hs'. simpl in Hs', Hall.
    apply andb_true_iff in Hs' as [Hs' _]. apply andb_true_iff in Hall as [Hall _].
    apply OverlapFacts.single_upper_word in Hall as (_ & _ & Hno). congruence.
  - intros items Hne Hall.
    assert (Hc : unanimous camel items).
    { eapply OverlapFacts.everyMatches_impl; [| exact Hall].
      intros s Hs. apply OverlapFacts.single_lower_word, Hs. }
    assert (Hl : unanimous lower_snake items).
    { eapply OverlapFacts.everyMatches_impl; [| exact Hall].
      intros s Hs. apply OverlapFacts.single_lower_word, Hs. }
    split; [exact Hc | split; [exact Hl |]].
    apply ClassifierFacts.named_items_Some. split; [exact Hne | split; [exact Hc |]].
    intros s' _. simpl. lia.
Qed.

(** Witness for C9: ["FOO"; "BAR2"] is classified pascal. *)
Lemma overlap_resolved_by_order_witness :
  getNamingStyleFromNamedItems [{| binding := "FOO" |}; {| binding := "BAR2" |}]
  = Some pascal.
Proof.
  apply (proj1 (proj2 overlap_resolved_by_order)
           [{| binding := "FOO" |}; {| binding := "BAR2" |}]).
  - discriminate.
  - reflexivity.
Defined.

(** C7: with the key-value bindings ["KV_ONE"; "KV_TWO"] the classifier
    answers upper_snake, and the class FooBarActor is rendered under that
    style as FOO_BAR_ACTOR. *)
Theorem scenario_upper_snake (config : Config) (w : World) :
  kv_namespaces config = Some [{| binding := "KV_ONE" |}; {| binding := "KV_TWO" |}] ->
  getNamingStyleFromNamedItems [{| binding := "KV_ONE" |}; {| binding := "KV_TWO" |}]
  = Some upper_snake /\
  detectedStyle config keys = Some upper_snake /\
  snd (getNamingStyleFromOtherBindings config w) = inl upper_snake /\
  prompts (fst (getNamingStyleFromOtherBindings config w)) = [] /\
  styleNames "FooBarActor" upper_snake = "FOO_BAR_ACTOR".
Proof.
  intro Hkv.
  assert (Hd : detectedStyle config keys = Some upper_snake).
  { unfold keys. cbn [detectedStyle configAt]. rewrite Hkv. reflexivity. }
  split; [reflexivity | split; [exact Hd |]].
  rewrite ScriptFacts.style_run. unfold resolvedStyle, styleEvents. rewrite Hd.
  repeat split; reflexivity.
Qed.

(** Witness for C7: the sample configuration with those two bindings. *)
Lemma scenario_upper_snake_witness :
  snd (getNamingStyleFromOtherBindings (sampleConfig ["KV_ONE"; "KV_TWO"] [])
         (sampleWorld (literals ["FooBarActor"]) ["KV_ONE"; "KV_TWO"] []
            Cancelled Cancelled))
  = inl upper_snake.
Proof.
  apply (scenario_upper_snake (sampleConfig ["KV_ONE"; "KV_TWO"] [])
           (sampleWorld (literals ["FooBarActor"]) ["KV_ONE"; "KV_TWO"] []
              Cancelled Cancelled)).
  reflexivity.
Defined.

(** C5: for each of the four styles and each name that passes the
    PascalCase pattern, the transcoded name consists of letters, digits and
    underscores only and passes the classifier's pattern of that style. *)
Theorem styleNames_style_total (nameAsPascalCase : string) (style : NamingStyle) :
  Re.test Pattern.pascalCase nameAsPascalCase = true ->
  allChars wordChar (styleNames nameAsPascalCase style) = true /\
  Re.test (Pattern.forStyle style) (styleNames nameAsPascalCase style) = true.
Proof.
  intro Hnm.
  pose proof (TranscoderFacts.styleNames_test nameAsPascalCase style Hnm) as Ht.
  split; [| exact Ht].
  apply ReFacts.test_Matches, StringFacts.Matches_mayContain in Ht.
  eapply StringFacts.allChars_impl; [| exact Ht].
  apply StringFacts.style_alphabet.
Qed.

(** Witness for C5: ChatRoom2 rendered in lower_snake_case. *)
Lemma styleNames_style_total_witness :
  allChars wordChar (styleNames "ChatRoom2" lower_snake) = true /\
  Re.test (Pattern.forStyle lower_snake) (styleNames "ChatRoom2" lower_snake) = true.
Proof.
  apply (styleNames_style_total "ChatRoom2" lower_snake). reflexivity.
Defined.

(** ** Reconciliation *)

Module ReconcileFacts.

Lemma includes_In arr x : Js.includes arr x = true <-> In x arr.
Proof.
  unfold Js.includes. rewrite existsb_exists. split.
  - intros (y & Hin & Heq). apply String.eqb_eq in Heq. now subst.
  - intro Hin. exists x. split; [exact Hin | apply String.eqb_refl].
Qed.

Lemma withoutExisting_In existing items x :
  In x (withoutExisting existing items) <-> In x items /\ ~ In x existing.
Proof.
  unfold withoutExisting. rewrite filter_In, negb_true_iff.
  split; intros [H1 H2]; (split; [exact H1 |]).
  - intro Hin. apply includes_In in Hin. congruence.
  - destruct (Js.includes existing x) eqn:E; [| reflexivity].
    apply includes_In in E. contradiction.
Qed.

Lemma filter_same {A} (f g : A -> bool) l :
  (forall x, In x l -> f x = g x) -> filter f l = filter g l.
Proof.
  induction l as [| x l IH]; simpl; intro H; [reflexivity |].
  rewrite (H x (or_introl eq_refl)), IH; auto.
Qed.

Lemma filter_Permutation {A} (f : A -> bool) l l' :
  Permutation l l' -> Permutation (filter f l) (filter f l').
Proof.
  induction 1; simpl.
  - constructor.
  - destruct (f x); auto.
  - destruct (f x), (f y); auto. constructor.
  - eapply perm_trans; eauto.
Qed.

End ReconcileFacts.

(** C6: the difference [discovered - existing] equals its intersection
    with [discovered]; filtering it a second time changes nothing; it does
    not depend on the order (nor on the repetitions) of [existing], and
    reordering [discovered] only reorders it; its members are the
    discovered names that are not existing ones. *)
Theorem reconciliation_difference (discovered existing : list string) :
  intersect discovered (withoutExisting existing discovered)
  = withoutExisting existing discovered /\
  withoutExisting existing (withoutExisting existing discovered)
  = withoutExisting existing discovered /\
  (forall existing',
     (forall x, In x existing <-> In x existing') ->
     withoutExisting existing' discovered = withoutExisting existing discovered) /\
  (forall discovered',
     Permutation discovered discovered' ->
     Permutation (withoutExisting existing discovered)
                 (withoutExisting existing discovered')) /\
  (forall x, In x (withoutExisting existing discovered) <->
             In x discovered /\ ~ In x existing).
Proof.
  split; [| split; [| split; [| split]]].
  - unfold intersect. unfold withoutExisting at 2.
    apply ReconcileFacts.filter_same. intros x Hx.
    destruct (Js.includes existing x) eqn:E; simpl.
    + destruct (Js.includes (withoutExisting existing discovered) x) eqn:E'; [| reflexivity].
      apply ReconcileFacts.includes_In, ReconcileFacts.withoutExisting_In in E' as [_ Hn].
      apply ReconcileFacts.includes_In in E. contradiction.
    + apply ReconcileFacts.includes_In, ReconcileFacts.withoutExisting_In.
      split; [exact Hx |]. rewrite <- ReconcileFacts.includes_In. congruence.
  - unfold withoutExisting at 1.
    rewrite <- (filter_ext_in (fun _ => true)).
    + clear. induction (withoutExisting existing discovered) as [| x l IH];
        simpl; congruence.
    + intros x Hx. apply ReconcileFacts.withoutExisting_In in Hx as [_ Hn].
      rewrite <- ReconcileFacts.includes_In in Hn.
      destruct (Js.includes existing x); [congruence | reflexivity].
  - intros existing' Hsame. unfold withoutExisting.
    apply ReconcileFacts.filter_same. intros x _. f_equal.
    destruct (Js.includes existing' x) eqn:E1, (Js.includes existing x) eqn:E2;
      try reflexivity.
    + apply ReconcileFacts.includes_In, Hsame, ReconcileFacts.includes_In in E1. congruence.
    + apply ReconcileFacts.includes_In, Hsame, ReconcileFacts.includes_In in E2. congruence.
  - intros discovered' Hperm. apply ReconcileFacts.filter_Permutation, Hperm.
  - apply ReconcileFacts.withoutExisting_In.
Qed.

(** Witness for C6: the existing names reordered and repeated, the
    discovered names reordered. *)
Lemma reconciliation_difference_witness :
  withoutExisting ["Timer"; "Counter"; "Timer"] ["Counter"; "ChatRoom"; "Lobby"]
  = withoutExisting ["Counter"; "Timer"] ["Counter"; "ChatRoom"; "Lobby"] /\
  Permutation (withoutExisting ["Counter"; "Timer"] ["Counter"; "ChatRoom"; "Lobby"])
              (withoutExisting ["Counter"; "Timer"] ["Lobby"; "Counter"; "ChatRoom"]).
Proof.
  pose proof (reconciliation_difference ["Counter"; "ChatRoom"; "Lobby"] ["Counter"; "Timer"])
    as (_ & _ & Hexisting & Hdiscovered & _).
  split.
  - apply Hexisting. intro x. simpl. tauto.
  - apply Hdiscovered.
    apply Permutation_sym, (Permutation_cons_append ["Counter"; "ChatRoom"] "Lobby").
Defined.

(** ** Prompts, exits and the one patch *)

Module RunFacts.
Import ScriptFacts.

Lemma patchCalls_shown config w items message :
  patchCalls ((report items ++ styleEvents config w) ++ [prompt_confirm message]) = [].
Proof.
  unfold patchCalls. rewrite filter_app. fold (patchCalls (report items ++ styleEvents config w)).
  rewrite patchCalls_quiet. reflexivity.
Qed.

Lemma patchCalls_patched config w items message path patch :
  patchCalls (((report items ++ styleEvents config w) ++ [prompt_confirm message])
              ++ [patchConfig path patch])
  = [patchConfig path patch].
Proof.
  unfold patchCalls. rewrite filter_app.
  fold (patchCalls ((report items ++ styleEvents config w) ++ [prompt_confirm message])).
  rewrite patchCalls_shown. reflexivity.
Qed.

Lemma not_confirm_in_quiet config w items message :
  ~ In (prompt_confirm message) (report items ++ styleEvents config w).
Proof.
  intro H. apply quiet_events in H as (_ & Hc & _). eapply Hc; reflexivity.
Qed.

Lemma not_patch_in_quiet config w items path patch :
  ~ In (patchConfig path patch) (report items ++ styleEvents config w).
Proof. intro H. apply quiet_events in H as (Hp & _). discriminate. Qed.

Lemma select_in_quiet config w items message options :
  In (prompt_select message options) (report items ++ styleEvents config w) ->
  prompt_select message options = stylePrompt /\ detectedStyle config keys = None.
Proof. intro H. apply quiet_events in H as (_ & _ & Hs). eapply Hs; reflexivity. Qed.

Lemma in_shown (e c : Event) quiet :
  In e (quiet ++ [c]) -> In e quiet \/ e = c.
Proof. intro H. apply in_app_iff in H as [H | [H | []]]; auto. Qed.

Lemma in_patched (e c p : Event) quiet :
  In e ((quiet ++ [c]) ++ [p]) -> In e quiet \/ e = c \/ e = p.
Proof.
  intro H. apply in_app_iff in H as [H | [H | []]]; [| auto].
  apply in_shown in H as [H | H]; auto.
Qed.

(** Case analysis of a run, with the trace and the outcome rewritten. *)
Ltac runs w :=
  let items := fresh "items" in
  let style := fresh "style" in
  let path := fresh "path" in
  let Hnet := fresh "Hnet" in
  let Hstyle := fresh "Hstyle" in
  let Hans := fresh "Hans" in
  let Hpath := fresh "Hpath" in
  let Ht := fresh "Ht" in
  let Ho := fresh "Ho" in
  let msg := fresh "message" in
  destruct (script_shapes w)
    as [ [Ht [msg Ho]]
       | (items & Hnet &
          [ (Hstyle & Ht & Ho)
          | (style & Hstyle &
             [ (Hans & Ht & Ho)
             | [ (Hans & Ht & Ho)
               | [ (Hans & Hpath & Ht & Ho)
                 | (path & Hans & Hpath & Ht & Ho) ]]]) ]) ];
  rewrite ?Ht, ?Ho.

(** A call of [patchConfig] is the last step of a confirmed run. *)
Lemma patched_run w path patch :
  In (patchConfig path patch) (trace w) ->
  confirmAnswer w = Answered true /\
  exists items style,
    trace w = ((report items ++ styleEvents (readConfig w) w)
               ++ [prompt_confirm (confirmMessage (length items));
                   patchConfig path patch])%list /\
    netNew w (Some items) /\
    resolvedStyle (readConfig w) w = Some style /\
    patch = patchOf items style (toISOString w).
Proof.
  intro Hin. runs w; rewrite ?Ht in Hin.
  - destruct Hin.
  - apply not_patch_in_quiet in Hin. destruct Hin.
  - exfalso. apply in_shown in Hin as [Hin | Hin]; [| discriminate].
    apply not_patch_in_quiet in Hin. exact Hin.
  - exfalso. apply in_shown in Hin as [Hin | Hin]; [| discriminate].
    apply not_patch_in_quiet in Hin. exact Hin.
  - exfalso. apply in_shown in Hin as [Hin | Hin]; [| discriminate].
    apply not_patch_in_quiet in Hin. exact Hin.
  - apply in_patched in Hin as [Hin | [Hin | Hin]]; try discriminate.
    + apply not_patch_in_quiet in Hin. destruct Hin.
    + inversion Hin; subst. split; [exact Hans |].
      exists items, style.
      split; [rewrite <- !app_assoc; reflexivity | auto].
Qed.

Lemma netNew_functional w items items' :
  netNew w items -> netNew w items' -> items = items'.
Proof.
  intros (c1 & t1 & Hd1 & <-) (c2 & t2 & Hd2 & <-).
  rewrite Hd1 in Hd2. inversion Hd2; subst. reflexivity.
Qed.

End RunFacts.

(** C10: a plain "no" at the confirmation prompt ends the process with
    status 0 and [patchConfig] is not called, whereas a cancellation there
    ends it with status 1. *)
Theorem declined_confirmation_exits_zero (w : World) (message : string) :
  In (prompt_confirm message) (trace w) ->
  (confirmAnswer w = Answered false ->
   outcome w = inr (exited 0) /\ exitStatus (outcome w) = 0 /\
   patchCalls (trace w) = []) /\
  (confirmAnswer w = Cancelled -> exitStatus (outcome w) = 1).
Proof.
  intro Hin. RunFacts.runs w; rewrite ?Ht in Hin.
  - destruct Hin.
  - apply RunFacts.not_confirm_in_quiet in Hin. destruct Hin.
  - split; [congruence | reflexivity].
  - split; [| congruence]. intros _.
    rewrite RunFacts.patchCalls_shown. auto.
  - split; congruence.
  - split; congruence.
Qed.

(** Witness for C10: one net-new class, the style detected, the operator
    answers no. *)
Lemma declined_confirmation_exits_zero_witness :
  outcome (sampleWorld (literals ["Counter"; "ChatRoom"]) ["KV_ONE"] ["Counter"]
             Cancelled (Answered false)) = inr (exited 0) /\
  exitStatus (outcome (sampleWorld (literals ["Counter"; "ChatRoom"]) ["KV_ONE"]
                         ["Counter"] Cancelled (Answered false))) = 0 /\
  patchCalls (trace (sampleWorld (literals ["Counter"; "ChatRoom"]) ["KV_ONE"]
                       ["Counter"] Cancelled (Answered false))) = [].
Proof.
  apply (declined_confirmation_exits_zero
           (sampleWorld (literals ["Counter"; "ChatRoom"]) ["KV_ONE"] ["Counter"]
              Cancelled (Answered false))
           (confirmMessage 1)).
  - vm_compute. right; right; right; right. left. reflexivity.
  - reflexivity.
Defined.

(** C8: a cancellation at the style prompt or at the confirmation prompt
    ends the process at once with status 1, the prompt being the last thing
    that happened and [patchConfig] not called; [patchConfig] is called at
    most once, only after the confirmation prompt was answered yes, as the
    last step of the run, with the patch built from all net-new names and
    the resolved style. *)
Theorem cancellation_and_single_patch (w : World) :
  (forall message options,
     In (prompt_select message options) (trace w) -> selectAnswer w = Cancelled ->
     outcome w = inr (exited 1) /\ exitStatus (outcome w) = 1 /\
     patchCalls (trace w) = [] /\
     exists before, trace w = (before ++ [prompt_select message options])%list) /\
  (forall message,
     In (prompt_confirm message) (trace w) -> confirmAnswer w = Cancelled ->
     outcome w = inr (exited 1) /\ exitStatus (outcome w) = 1 /\
     patchCalls (trace w) = [] /\
     exists before, trace w = (before ++ [prompt_confirm message])%list) /\
  length (patchCalls (trace w)) <= 1 /\
  (forall path patch,
     In (patchConfig path patch) (trace w) ->
     confirmAnswer w = Answered true /\
     exists before message items style,
       trace w = (before ++ [prompt_confirm message; patchConfig path patch])%list /\
       patchCalls before = [] /\
       netNew w (Some items) /\
       resolvedStyle (readConfig w) w = Some style /\
       patch = patchOf items style (toISOString w)).
Proof.
  split; [| split; [| split]].
  - intros message options Hin Hcancel. RunFacts.runs w; rewrite ?Ht in Hin.
    + destruct Hin.
    + apply RunFacts.select_in_quiet in Hin as [Heq _]. rewrite Heq.
      destruct (ScriptFacts.resolvedStyle_None _ _ Hstyle) as (_ & _ & Hev).
      split; [reflexivity | split; [reflexivity | split]].
      * apply ScriptFacts.patchCalls_quiet.
      * exists (report items). rewrite Hev. reflexivity.
    + exfalso. apply RunFacts.in_shown in Hin as [Hin | Hin]; [| discriminate].
      apply RunFacts.select_in_quiet in Hin as [_ Hd].
      rewrite (ScriptFacts.resolvedStyle_prompt _ _ _ Hstyle Hd) in Hcancel. discriminate.
    + exfalso. apply RunFacts.in_shown in Hin as [Hin | Hin]; [| discriminate].
      apply RunFacts.select_in_quiet in Hin as [_ Hd].
      rewrite (ScriptFacts.resolvedStyle_prompt _ _ _ Hstyle Hd) in Hcancel. discriminate.
    + exfalso. apply RunFacts.in_shown in Hin as [Hin | Hin]; [| discriminate].
      apply RunFacts.select_in_quiet in Hin as [_ Hd].
      rewrite (ScriptFacts.resolvedStyle_prompt _ _ _ Hstyle Hd) in Hcancel. discriminate.
    + exfalso. apply RunFacts.in_patched in Hin as [Hin | [Hin | Hin]]; try discriminate.
      apply RunFacts.select_in_quiet in Hin as [_ Hd].
      rewrite (ScriptFacts.resolvedStyle_prompt _ _ _ Hstyle Hd) in Hcancel. discriminate.
  - intros message Hin Hcancel. RunFacts.runs w; rewrite ?Ht in Hin; try congruence.
    + destruct Hin.
    + apply RunFacts.not_confirm_in_quiet in Hin. destruct Hin.
    + apply RunFacts.in_shown in Hin as [Hin | Hin].
      * apply RunFacts.not_confirm_in_quiet in Hin. destruct Hin.
      * inversion Hin; subst. rewrite RunFacts.patchCalls_shown. eauto.
  - RunFacts.runs w; rewrite ?RunFacts.patchCalls_shown, ?RunFacts.patchCalls_patched,
      ?ScriptFacts.patchCalls_quiet; simpl; lia.
  - intros path patch Hin.
    destruct (RunFacts.patched_run w path patch Hin)
      as (Hyes & items & style & Ht & Hnet & Hstyle & Hpatch).
    split; [exact Hyes |].
    exists (report items ++ styleEvents (readConfig w) w)%list,
      (confirmMessage (length items)), items, style.
    split; [exact Ht | split; [apply ScriptFacts.patchCalls_quiet | auto]].
Qed.

(** Witness for C8: a run cancelled at the style prompt, a run cancelled
    at the confirmation prompt, and a confirmed run. *)
Lemma cancellation_and_single_patch_witness :
  outcome (sampleWorld (literals ["Counter"; "ChatRoom"]) ["kv"; "Mixed"] ["Counter"]
             Cancelled (Answered true)) = inr (exited 1) /\
  outcome (sampleWorld (literals ["Counter"; "ChatRoom"]) ["KV_ONE"] ["Counter"]
             (Answered camel) Cancelled) = inr (exited 1) /\
  confirmAnswer (sampleWorld (literals ["Counter"; "ChatRoom"]) ["KV_ONE"] ["Counter"]
                   Cancelled (Answered true)) = Answered true.
Proof.
  split; [| split].
  - apply (proj1 (cancellation_and_single_patch
                    (sampleWorld (literals ["Counter"; "ChatRoom"]) ["kv"; "Mixed"]
                       ["Counter"] Cancelled (Answered true)))
             "What naming style should be used for the Durable Objects?" selectOptions).
    + vm_compute. right; right; right. left. reflexivity.
    + reflexivity.
  - apply (proj1 (proj2 (cancellation_and_single_patch
                           (sampleWorld (literals ["Counter"; "ChatRoom"]) ["KV_ONE"]
                              ["Counter"] (Answered camel) Cancelled)))
             (confirmMessage 1)).
    + vm_compute. right; right; right; right. left. reflexivity.
    + reflexivity.
  - apply (proj2 (proj2 (proj2 (cancellation_and_single_patch
                                  (sampleWorld (literals ["Counter"; "ChatRoom"])
                                     ["KV_ONE"] ["Counter"] Cancelled (Answered true)))))
             "wrangler.jsonc"
             (patchOf ["ChatRoom"] upper_snake "2025-01-01T00:00:00.000Z")).
    vm_compute. right; right; right; right; right. left. reflexivity.
Defined.

(** C4: when the net-new set is not empty, the patch handed to
    [patchConfig] has one binding per net-new name, in the same order, named
    by [styleNames] under the resolved style and with the class identifier
    as [class_name], and one migration whose [new_sqlite_classes] are all the
    net-new names and whose tag is the UTC timestamp, a dash, and the names
    joined by dashes. *)
Theorem planned_delta_of_net_new (w : World) (items : list string)
  (path : string) (patch : ConfigPatch) :
  netNew w (Some items) -> items <> [] ->
  In (patchConfig path patch) (trace w) ->
  exists style,
    resolvedStyle (readConfig w) w = Some style /\
    length (bindings (patch_durable_objects patch)) = length items /\
    (forall i it,
       nth_error items i = Some it ->
       nth_error (bindings (patch_durable_objects patch)) i
       = Some {| name := styleNames it style; class_name := it |}) /\
    map class_name (bindings (patch_durable_objects patch)) = items /\
    patch_migrations patch
    = [ {| tag := toISOString w ++ "-" ++ Js.join "-" items;
           new_sqlite_classes := items |} ].
Proof.
  intros Hnet Hne Hin.
  destruct (RunFacts.patched_run w path patch Hin)
    as (_ & items' & style & _ & Hnet' & Hstyle & ->).
  assert (Heq : Some items = Some items')
    by (eapply RunFacts.netNew_functional; eauto).
  inversion Heq; subst items'. clear Heq.
  exists style. split; [exact Hstyle |]. simpl.
  split; [apply length_map | split; [| split; [| reflexivity]]].
  - intros i it Hi. rewrite nth_error_map, Hi. reflexivity.
  - rewrite map_map. simpl. apply map_id.
Qed.

(** Witness for C4: Counter and ChatRoom discovered, Counter declared;
    the patch has the one binding CHAT_ROOM and one migration for ChatRoom. *)
Lemma planned_delta_of_net_new_witness :
  exists style,
    resolvedStyle (sampleConfig ["KV_ONE"] ["Counter"])
      (sampleWorld (literals ["Counter"; "ChatRoom"]) ["KV_ONE"] ["Counter"]
         Cancelled (Answered true)) = Some style /\
    length [{| name := "CHAT_ROOM"; class_name := "ChatRoom" |}] = 1 /\
    (forall i it,
       nth_error ["ChatRoom"] i = Some it ->
       nth_error [{| name := "CHAT_ROOM"; class_name := "ChatRoom" |}] i
       = Some {| name := styleNames it style; class_name := it |}) /\
    map class_name [{| name := "CHAT_ROOM"; class_name := "ChatRoom" |}] = ["ChatRoom"] /\
    [ {| tag := "2025-01-01T00:00:00.000Z-ChatRoom"; new_sqlite_classes := ["ChatRoom"] |} ]
    = [ {| tag := "2025-01-01T00:00:00.000Z" ++ "-" ++ Js.join "-" ["ChatRoom"];
           new_sqlite_classes := ["ChatRoom"] |} ].
Proof.
  apply (planned_delta_of_net_new
           (sampleWorld (literals ["Counter"; "ChatRoom"]) ["KV_ONE"] ["Counter"]
              Cancelled (Answered true))
           ["ChatRoom"] "wrangler.jsonc"
           (patchOf ["ChatRoom"] upper_snake "2025-01-01T00:00:00.000Z")).
  - exists sampleChecker, (literals ["Counter"; "ChatRoom"]). split; reflexivity.
  - discriminate.
  - vm_compute. right; right; right; right; right. left. reflexivity.
Defined.

(** ** Candidates of the default export *)

Module ExtractFacts.

Lemma removeAll_app c s1 s2 :
  Js.removeAll c (s1 ++ s2) = Js.removeAll c s1 ++ Js.removeAll c s2.
Proof.
  induction s1 as [| d s1 IH]; simpl; [reflexivity |].
  destruct (Ascii.eqb d c); simpl; congruence.
Qed.

Lemma removeAll_free c s :
  allChars (fun d => negb (Ascii.eqb d c)) s = true -> Js.removeAll c s = s.
Proof.
  induction s as [| d s IH]; simpl; [reflexivity |].
  intro H. apply andb_true_iff in H as [Hd Hs].
  apply negb_true_iff in Hd. rewrite Hd, IH; auto.
Qed.

Lemma removeAll_clean c s :
  allChars (fun d => negb (Ascii.eqb d c)) (Js.removeAll c s) = true.
Proof.
  induction s as [| d s IH]; simpl; [reflexivity |].
  destruct (Ascii.eqb d c) eqn:E; simpl; [exact IH |]. now rewrite E, IH.
Qed.

Lemma removeAll_quoted v :
  Js.removeAll doubleQuote (quoted v) = Js.removeAll doubleQuote v.
Proof.
  unfold quoted. simpl. rewrite removeAll_app. simpl.
  apply ReFacts.append_nil_r.
Qed.

Lemma strip_literals (checker : Ts.TypeChecker) values :
  (forall v, Ts.typeToString checker (Ts.StringLiteral v) = quoted v) ->
  forallb quoteFree values = true ->
  map (fun it => Js.removeAll doubleQuote (Ts.typeToString checker it))
      (map Ts.StringLiteral values) = values.
Proof.
  intros Hprint. induction values as [| v values IH]; simpl; [reflexivity |].
  intro H. apply andb_true_iff in H as [Hv Hvs].
  rewrite Hprint, removeAll_quoted, (removeAll_free _ _ Hv), IH; auto.
Qed.

End ExtractFacts.

(** Counterexample to C3 as stated: for a default export of type [never]
    the script has no list of candidates at all, not an empty one, and the
    run ends with a thrown error before any count is reported. *)
Lemma unresolved_type_is_not_zero_candidates :
  itemsOfDefaultType sampleChecker (Ts.Other "never") <> Some [] /\
  ~ netNew (sampleWorld (Ts.Other "never") ["KV_ONE"] [] Cancelled (Answered true))
      (Some []) /\
  trace (sampleWorld (Ts.Other "never") ["KV_ONE"] [] Cancelled (Answered true)) = [] /\
  outcome (sampleWorld (Ts.Other "never") ["KV_ONE"] [] Cancelled (Answered true))
  = inr (thrown "No Durable Objects found in your Worker") /\
  exitStatus (outcome (sampleWorld (Ts.Other "never") ["KV_ONE"] [] Cancelled
                         (Answered true))) = 1.
Proof.
  split; [discriminate | split; [| repeat split; reflexivity]].
  intro H.
  assert (Hnone : netNew (sampleWorld (Ts.Other "never") ["KV_ONE"] [] Cancelled
                            (Answered true)) None).
  { exists sampleChecker, (Ts.Other "never"). split; reflexivity. }
  pose proof (RunFacts.netNew_functional _ _ _ H Hnone). discriminate.
Qed.

(** C3, amended: a union type gives the printed form of each member with
    the double quotes removed, a string-literal type gives the one printed
    form treated alike, and for a printer that shows a literal between
    double quotes these are the literal values themselves; no candidate
    contains a double quote.  Any other type gives no list of candidates
    ([undefined], which is not the empty list), and the run then stops with
    the error "No Durable Objects found in your Worker", nothing shown. *)
Theorem candidates_of_default_type (checker : Ts.TypeChecker) (defaultType : Ts.Type_) :
  match defaultType with
  | Ts.Union types =>
      itemsOfDefaultType checker defaultType
      = Some (map (fun it => Js.removeAll doubleQuote (Ts.typeToString checker it)) types)
  | Ts.StringLiteral _ =>
      itemsOfDefaultType checker defaultType
      = Some [Js.removeAll doubleQuote (Ts.typeToString checker defaultType)]
  | Ts.Other _ =>
      itemsOfDefaultType checker defaultType = None /\
      forall w,
        defaultTypeOf (readConfig w) w = ([], inl (checker, defaultType)) ->
        netNew w None /\ trace w = [] /\
        outcome w = inr (thrown "No Durable Objects found in your Worker") /\
        exitStatus (outcome w) = 1
  end /\
  (forall items,
     itemsOfDefaultType checker defaultType = Some items ->
     forallb quoteFree items = true) /\
  ((forall v, Ts.typeToString checker (Ts.StringLiteral v) = quoted v) ->
   (forall values,
      forallb quoteFree values = true ->
      itemsOfDefaultType checker (literals values) = Some values) /\
   (forall value,
      quoteFree value = true ->
      itemsOfDefaultType checker (Ts.StringLiteral value) = Some [value])).
Proof.
  split; [| split].
  - destruct defaultType as [types | value | text]; try reflexivity.
    split; [reflexivity |]. intros w Hd.
    assert (Hnet : netNew w None) by (exists checker, (Ts.Other text); auto).
    split; [exact Hnet |]. unfold trace, outcome.
    rewrite (ScriptFacts.netNew_script w None Hnet). repeat split; reflexivity.
  - intros items H. destruct defaultType as [types | value | text]; simpl in H;
      inversion H; subst.
    + clear H. induction types as [| t types IH]; simpl; [reflexivity |].
      unfold quoteFree at 1. now rewrite ExtractFacts.removeAll_clean, IH.
    + simpl. unfold quoteFree. now rewrite ExtractFacts.removeAll_clean.
  - intro Hprint. split.
    + intros values Hfree. unfold literals. simpl.
      now rewrite (ExtractFacts.strip_literals checker values Hprint Hfree).
    + intros value Hfree. simpl.
      now rewrite Hprint, ExtractFacts.removeAll_quoted,
        (ExtractFacts.removeAll_free _ _ Hfree).
Qed.

(** Witness for C3: the union ["Counter" | "ChatRoom"] under the sample
    printer, and the run for a default export of type [never]. *)
Lemma candidates_of_default_type_witness :
  itemsOfDefaultType sampleChecker (literals ["Counter"; "ChatRoom"])
  = Some ["Counter"; "ChatRoom"] /\
  outcome (sampleWorld (Ts.Other "never") ["KV_ONE"] [] Cancelled (Answered true))
  = inr (thrown "No Durable Objects found in your Worker").
Proof.
  split.
  - apply (proj2 (proj2 (candidates_of_default_type sampleChecker
                           (literals ["Counter"; "ChatRoom"])))).
    + reflexivity.
    + reflexivity.
  - apply (proj2 (proj1 (candidates_of_default_type sampleChecker (Ts.Other "never")))
             (sampleWorld (Ts.Other "never") ["KV_ONE"] [] Cancelled (Answered true))).
    reflexivity.
Defined.

(** Counterexample to C1 as stated: Counter is discovered and already
    declared, so the net-new set is empty; the confirmation prompt is shown
    all the same and, answered yes, [patchConfig] is called. *)
Lemma empty_net_new_still_prompts_and_patches :
  netNew (sampleWorld (Ts.StringLiteral "Counter") ["KV_ONE"] ["Counter"] Cancelled
            (Answered true)) (Some []) /\
  prompts (trace (sampleWorld (Ts.StringLiteral "Counter") ["KV_ONE"] ["Counter"] Cancelled
                    (Answered true)))
  = [prompt_confirm (confirmMessage 0)] /\
  patchCalls (trace (sampleWorld (Ts.StringLiteral "Counter") ["KV_ONE"] ["Counter"] Cancelled
                       (Answered true)))
  = [patchConfig "wrangler.jsonc"
       {| patch_durable_objects := {| bindings := [] |};
          patch_migrations :=
            [ {| tag := "2025-01-01T00:00:00.000Z-"; new_sqlite_classes := [] |} ] |}] /\
  ~ (patchCalls (trace (sampleWorld (Ts.StringLiteral "Counter") ["KV_ONE"] ["Counter"]
                          Cancelled (Answered true))) = [] /\
     prompts (trace (sampleWorld (Ts.StringLiteral "Counter") ["KV_ONE"] ["Counter"]
                       Cancelled (Answered true))) = [] /\
     exitStatus (outcome (sampleWorld (Ts.StringLiteral "Counter") ["KV_ONE"] ["Counter"]
                            Cancelled (Answered true))) = 0).
Proof.
  split; [| split; [| split]].
  - exists sampleChecker, (Ts.StringLiteral "Counter"). split; reflexivity.
  - reflexivity.
  - reflexivity.
  - intros (H & _). vm_compute in H. discriminate.
Qed.

(** C1, amended: when the net-new set is empty the run reports a count of
    zero and no names, and then goes on as for any other set: once the style
    is resolved the confirmation prompt is shown; [patchConfig] is called
    only after a yes, and then with no bindings and one migration that lists
    no classes; a no ends the process with status 0 and without a call. *)
Theorem empty_net_new_run (w : World) :
  netNew w (Some []) ->
  (exists rest,
     trace w = console_warn (foundMessage 0) :: console_log "" :: rest) /\
  (forall style,
     resolvedStyle (readConfig w) w = Some style ->
     In (prompt_confirm (confirmMessage 0)) (trace w)) /\
  (forall path patch,
     In (patchConfig path patch) (trace w) ->
     confirmAnswer w = Answered true /\
     bindings (patch_durable_objects patch) = [] /\
     patch_migrations patch
     = [ {| tag := toISOString w ++ "-"; new_sqlite_classes := [] |} ]) /\
  (forall style,
     resolvedStyle (readConfig w) w = Some style ->
     confirmAnswer w = Answered false ->
     outcome w = inr (exited 0) /\ exitStatus (outcome w) = 0 /\
     patchCalls (trace w) = []).
Proof.
  intro Hnet.
  pose proof (ScriptFacts.netNew_script w (Some []) Hnet) as Hrun.
  rewrite ScriptFacts.declare_run in Hrun.
  split; [| split; [| split]].
  - unfold trace. rewrite Hrun.
    destruct (resolvedStyle (readConfig w) w) as [style |]; [| simpl; eauto].
    cbv zeta. destruct (confirmAnswer w) as [| [|]]; [simpl; eauto | | simpl; eauto].
    destruct (configPath (readConfig w)); simpl; eauto.
  - intros style Hstyle. unfold trace. rewrite Hrun, Hstyle. cbv zeta.
    destruct (confirmAnswer w) as [| [|]]; [| destruct (configPath (readConfig w)) |];
      cbn [fst]; rewrite !in_app_iff; simpl; auto 6.
  - intros path patch Hin.
    destruct (RunFacts.patched_run w path patch Hin)
      as (Hyes & items' & style & _ & Hnet' & _ & ->).
    assert (Heq : Some [] = Some items')
      by (eapply RunFacts.netNew_functional; eauto).
    inversion Heq; subst items'. auto.
  - intros style Hstyle Hno. unfold outcome, trace. rewrite Hrun, Hstyle, Hno.
    cbv zeta. cbn [fst snd]. repeat split.
    rewrite app_assoc. apply RunFacts.patchCalls_shown.
Qed.

(** Witness for C1: Counter discovered and already declared; the operator
    answers no. *)
Lemma empty_net_new_run_witness :
  outcome (sampleWorld (Ts.StringLiteral "Counter") ["KV_ONE"] ["Counter"] Cancelled
             (Answered false)) = inr (exited 0) /\
  exitStatus (outcome (sampleWorld (Ts.StringLiteral "Counter") ["KV_ONE"] ["Counter"]
                         Cancelled (Answered false))) = 0 /\
  patchCalls (trace (sampleWorld (Ts.StringLiteral "Counter") ["KV_ONE"] ["Counter"]
                       Cancelled (Answered false))) = [].
Proof.
  assert (Hnet : netNew (sampleWorld (Ts.StringLiteral "Counter") ["KV_ONE"] ["Counter"]
                           Cancelled (Answered false)) (Some [])).
  { exists sampleChecker, (Ts.StringLiteral "Counter"). split; reflexivity. }
  apply (proj2 (proj2 (proj2 (empty_net_new_run
                                (sampleWorld (Ts.StringLiteral "Counter") ["KV_ONE"]
                                   ["Counter"] Cancelled (Answered false))
                                Hnet))) upper_snake).
  - reflexivity.
  - reflexivity.
Defined.

(** * Further properties of the code *)

(** ** The shape of transcoded names *)

Module ShapeFacts.
Import Js Re ReFacts StringFacts TranscoderFacts.

Lemma lowered_back c : isUpper c = true -> upperChar (lowerChar c) = c.
Proof. each_code_unit c. Qed.

Lemma uppered_back c : lowerOrDigit c = true -> lowerChar (upperChar c) = c.
Proof. each_code_unit c. Qed.

Lemma lowered_inj c d :
  isUpper c = true -> isUpper d = true -> lowerChar c = lowerChar d -> c = d.
Proof.
  intros Hc Hd H. rewrite <- (lowered_back c Hc), <- (lowered_back d Hd). now rewrite H.
Qed.

Lemma uppered_inj c d :
  lowerOrDigit c = true -> lowerOrDigit d = true -> upperChar c = upperChar d -> c = d.
Proof.
  intros Hc Hd H. rewrite <- (uppered_back c Hc), <- (uppered_back d Hd). now rewrite H.
Qed.

Lemma upper_uppered_same c : isUpper c = true -> upperChar c = c.
Proof. each_code_unit c. Qed.

Lemma lowerOrDigit_lowered_same c : lowerOrDigit c = true -> lowerChar c = c.
Proof. each_code_unit c. Qed.

Lemma lowerOrDigit_uppered_plain c :
  lowerOrDigit c = true -> Ascii.eqb (upperChar c) "_" = false.
Proof. each_code_unit c. Qed.

Lemma lowerOrDigit_plain c : lowerOrDigit c = true -> Ascii.eqb c "_" = false.
Proof. each_code_unit c. Qed.

Lemma upper_plain c : isUpper c = true -> Ascii.eqb c "_" = false.
Proof. each_code_unit c. Qed.

Lemma upper_lowered_plain c : isUpper c = true -> Ascii.eqb (lowerChar c) "_" = false.
Proof. each_code_unit c. Qed.

Lemma mapChars_app f s1 s2 : mapChars f (s1 ++ s2) = mapChars f s1 ++ mapChars f s2.
Proof. induction s1; simpl; congruence. Qed.

Lemma mapChars_same (p : ascii -> bool) f s :
  (forall c, p c = true -> f c = c) -> allChars p s = true -> mapChars f s = s.
Proof.
  intro Hf. induction s as [| c s IH]; simpl; [auto |].
  intro H. apply andb_true_iff in H as [Hc Hs]. rewrite Hf, IH; auto.
Qed.

Lemma mapChars_prefixed f sep ps :
  mapChars f (prefixed sep ps) = prefixed (mapChars f sep) (map (mapChars f) ps).
Proof.
  induction ps as [| q ps IH]; simpl; [reflexivity |].
  now rewrite !mapChars_app, IH.
Qed.

Lemma beforeUpper_empty s : beforeUpper "" s = s.
Proof. induction s as [| c s IH]; simpl; [reflexivity |]. destruct (isUpper c); simpl; congruence. Qed.

Lemma join_empty ps : join "" ps = prefixed "" ps.
Proof. destruct ps as [| q ps]; [reflexivity |]. apply join_prefixed. Qed.

(** The parts of a spaced name, put together again behind any separator. *)
Lemma split_spaced_glue sep t :
  allChars alnum t = true ->
  forall p ps, split " " (spaceBeforeUpper t) = p :: ps ->
               p ++ prefixed sep ps = beforeUpper sep t.
Proof.
  induction t as [| d t IH]; intros Ht p ps Hs.
  - simpl in Hs. inversion Hs; subst. reflexivity.
  - simpl in Ht. apply andb_true_iff in Ht as [Hd Ht].
    destruct (split_spaced t Ht) as (p' & ps' & Hs' & _).
    specialize (IH Ht p' ps' Hs'). simpl in Hs |- *.
    destruct (isUpper d) eqn:Hu.
    + simpl in Hs. rewrite (upper_not_space d Hu), Hs' in Hs.
      inversion Hs; subst. simpl. now rewrite <- IH.
    + simpl in Hs. rewrite (alnum_not_space d Hd), Hs' in Hs.
      inversion Hs; subst. simpl. now rewrite <- IH.
Qed.

Lemma parts_glue sep c0 rest p ps :
  isUpper c0 = true -> allChars alnum rest = true ->
  split " " (trim (spaceBeforeUpper (String c0 rest))) = String c0 p :: ps ->
  p ++ prefixed sep ps = beforeUpper sep rest.
Proof.
  intros Hc Hr Hparts.
  destruct (split_spaced rest Hr) as (p' & ps' & Hs' & _).
  destruct (parts_of_pascal c0 rest Hc Hr) as (p2 & ps2 & Hparts2 & _).
  assert (Hsame : split " " (trim (spaceBeforeUpper (String c0 rest))) = String c0 p' :: ps').
  { unfold trim. simpl spaceBeforeUpper. rewrite Hc.
    assert (Hstart : trimStart (String " " (String c0 (spaceBeforeUpper rest)))
                     = String c0 (spaceBeforeUpper rest)).
    { simpl. now rewrite (upper_not_white c0 Hc). }
    rewrite Hstart, trimEnd_clean by (apply spaced_endsClean; auto using upper_not_white).
    simpl. now rewrite (upper_not_space c0 Hc), Hs'. }
  rewrite Hsame in Hparts. inversion Hparts; subst.
  apply split_spaced_glue; auto.
Qed.

Lemma camel_shape c0 rest :
  isUpper c0 = true -> allChars alnum rest = true ->
  styleNames (String c0 rest) camel = String (lowerChar c0) rest.
Proof.
  intros Hc Hr.
  destruct (parts_of_pascal c0 rest Hc Hr) as (p & ps & Hparts & Hp & Hps).
  pose proof (parts_glue "" c0 rest p ps Hc Hr Hparts) as Hglue.
  rewrite beforeUpper_empty in Hglue.
  unfold styleNames. rewrite Hparts, join_empty. simpl.
  fold (toLowerCase p). unfold toLowerCase.
  rewrite (mapChars_same lowerOrDigit lowerChar p lowerOrDigit_lowered_same Hp).
  now rewrite Hglue.
Qed.

Lemma snake_shape f c0 rest :
  f "_"%char = "_"%char ->
  isUpper c0 = true -> allChars alnum rest = true ->
  join "_" (map (mapChars f)
              (split " " (trim (spaceBeforeUpper (String c0 rest)))))
  = mapChars f (String c0 (beforeUpper "_" rest)).
Proof.
  intros Hf Hc Hr.
  destruct (parts_of_pascal c0 rest Hc Hr) as (p & ps & Hparts & Hp & Hps).
  pose proof (parts_glue "_" c0 rest p ps Hc Hr Hparts) as Hglue.
  rewrite Hparts. simpl map. rewrite join_prefixed. simpl.
  rewrite <- Hglue, mapChars_app, mapChars_prefixed. simpl. now rewrite Hf.
Qed.

Lemma upper_snake_inj t : forall t',
  allChars alnum t = true -> allChars alnum t' = true ->
  toUpperCase (beforeUpper "_" t) = toUpperCase (beforeUpper "_" t') -> t = t'.
Proof.
  unfold toUpperCase.
  induction t as [| d t IH]; intros [| d' t'] Ht Ht' H.
  - reflexivity.
  - exfalso. simpl in H. destruct (isUpper d'); discriminate.
  - exfalso. simpl in H. destruct (isUpper d); discriminate.
  - simpl in Ht, Ht'.
    apply andb_true_iff in Ht as [Hd Ht]. apply andb_true_iff in Ht' as [Hd' Ht'].
    simpl in H.
    destruct (isUpper d) eqn:Hu, (isUpper d') eqn:Hu'; simpl in H; inversion H.
    + rewrite (upper_uppered_same d Hu), (upper_uppered_same d' Hu') in *.
      subst. f_equal. auto.
    + exfalso. pose proof (lowerOrDigit_uppered_plain d' (alnum_split d' Hd' Hu')) as Hp.
      match goal with E : _ = upperChar d' |- _ => rewrite <- E in Hp end.
      discriminate.
    + exfalso. pose proof (lowerOrDigit_uppered_plain d (alnum_split d Hd Hu)) as Hp.
      match goal with E : upperChar d = _ |- _ => rewrite E in Hp end.
      discriminate.
    + f_equal; [| auto].
      apply uppered_inj; auto using alnum_split.
Qed.

Lemma lower_snake_inj t : forall t',
  allChars alnum t = true -> allChars alnum t' = true ->
  toLowerCase (beforeUpper "_" t) = toLowerCase (beforeUpper "_" t') -> t = t'.
Proof.
  unfold toLowerCase.
  induction t as [| d t IH]; intros [| d' t'] Ht Ht' H.
  - reflexivity.
  - exfalso. simpl in H. destruct (isUpper d'); discriminate.
  - exfalso. simpl in H. destruct (isUpper d); discriminate.
  - simpl in Ht, Ht'.
    apply andb_true_iff in Ht as [Hd Ht]. apply andb_true_iff in Ht' as [Hd' Ht'].
    simpl in H.
    destruct (isUpper d) eqn:Hu, (isUpper d') eqn:Hu'; simpl in H; inversion H.
    + f_equal; [| auto]. apply lowered_inj; auto.
    + exfalso. pose proof (alnum_split d' Hd' Hu') as Hl.
      rewrite (lowerOrDigit_lowered_same d' Hl) in *.
      pose proof (lowerOrDigit_plain d' Hl) as Hp.
      match goal with E : _ = d' |- _ => rewrite <- E in Hp end. discriminate.
    + exfalso. pose proof (alnum_split d Hd Hu) as Hl.
      rewrite (lowerOrDigit_lowered_same d Hl) in *.
      pose proof (lowerOrDigit_plain d Hl) as Hp.
      match goal with E : d = _ |- _ => rewrite E in Hp end. discriminate.
    + rewrite (lowerOrDigit_lowered_same d (alnum_split d Hd Hu)),
        (lowerOrDigit_lowered_same d' (alnum_split d' Hd' Hu')) in *.
      subst. f_equal. auto.
Qed.

Lemma upper_uppered_plain c : isUpper c = true -> Ascii.eqb (upperChar c) "_" = false.
Proof. each_code_unit c. Qed.

Lemma alnum_uppered_plain c : alnum c = true -> Ascii.eqb (upperChar c) "_" = false.
Proof. each_code_unit c. Qed.

Lemma alnum_lowered_plain c : alnum c = true -> Ascii.eqb (lowerChar c) "_" = false.
Proof. each_code_unit c. Qed.

Lemma lower_of_upper c : lowerChar (upperChar c) = lowerChar c.
Proof. destruct c as [[] [] [] [] [] [] [] []]; reflexivity. Qed.

Lemma toLowerCase_toUpperCase s : toLowerCase (toUpperCase s) = toLowerCase s.
Proof.
  unfold toLowerCase, toUpperCase.
  induction s as [| d s IH]; simpl; [reflexivity |]. now rewrite IH, lower_of_upper.
Qed.

(** Taking the underscores out of a case-mapped, underscored name. *)
Lemma strip_underscored f t :
  f "_"%char = "_"%char ->
  (forall c, alnum c = true -> Ascii.eqb (f c) "_" = false) ->
  allChars alnum t = true ->
  removeAll "_" (mapChars f (beforeUpper "_" t)) = mapChars f t.
Proof.
  intros Hf Hplain. induction t as [| d t IH]; simpl; [reflexivity |].
  intro Ht. apply andb_true_iff in Ht as [Hd Ht].
  destruct (isUpper d); simpl; rewrite ?Hf; simpl;
    rewrite (Hplain d Hd), (IH Ht); reflexivity.
Qed.

End ShapeFacts.

(** X1: under the camel style only the first letter of a PascalCase name
    changes: it is lower-cased and the rest of the name, acronyms included,
    is kept as it is. *)
Theorem camel_lowers_first_letter_only (c0 : ascii) (rest : string) :
  Re.test Pattern.pascalCase (String c0 rest) = true ->
  styleNames (String c0 rest) camel = String (Js.lowerChar c0) rest.
Proof.
  intro H. destruct (TranscoderFacts.pascal_shape _ H) as (c & r & Heq & Hc & Hr).
  inversion Heq; subst. apply ShapeFacts.camel_shape; auto.
Qed.

(** Witness for X1: HTTPServer becomes hTTPServer. *)
Lemma camel_lowers_first_letter_only_witness :
  styleNames "HTTPServer" camel = "hTTPServer".
Proof.
  apply (camel_lowers_first_letter_only "H" "TTPServer"). reflexivity.
Defined.

(** X2: under the snake styles a PascalCase name gets an underscore in
    front of every upper-case letter but the first, each one starting a word
    of its own, and is then upper-cased or lower-cased as a whole; so the two
    snake renderings differ in case only, and without the underscores they
    are the name in upper and in lower case. *)
Theorem snake_puts_underscore_before_each_capital (c0 : ascii) (rest : string) :
  Re.test Pattern.pascalCase (String c0 rest) = true ->
  styleNames (String c0 rest) upper_snake
  = Js.toUpperCase (String c0 (beforeUpper "_" rest)) /\
  styleNames (String c0 rest) lower_snake
  = Js.toLowerCase (String c0 (beforeUpper "_" rest)) /\
  styleNames (String c0 rest) lower_snake
  = Js.toLowerCase (styleNames (String c0 rest) upper_snake) /\
  Js.removeAll "_" (styleNames (String c0 rest) upper_snake)
  = Js.toUpperCase (String c0 rest) /\
  Js.removeAll "_" (styleNames (String c0 rest) lower_snake)
  = Js.toLowerCase (String c0 rest).
Proof.
  intro H. destruct (TranscoderFacts.pascal_shape _ H) as (c & r & Heq & Hc & Hr).
  inversion Heq; subst c r. clear Heq.
  assert (Hup : styleNames (String c0 rest) upper_snake
                = Js.toUpperCase (String c0 (beforeUpper "_" rest))).
  { unfold styleNames, Js.toUpperCase. apply ShapeFacts.snake_shape; auto. }
  assert (Hlow : styleNames (String c0 rest) lower_snake
                 = Js.toLowerCase (String c0 (beforeUpper "_" rest))).
  { unfold styleNames, Js.toLowerCase. apply ShapeFacts.snake_shape; auto. }
  split; [exact Hup | split; [exact Hlow | split; [| split]]].
  - rewrite Hup, Hlow, ShapeFacts.toLowerCase_toUpperCase. reflexivity.
  - rewrite Hup. unfold Js.toUpperCase. simpl.
    rewrite (ShapeFacts.upper_uppered_plain c0 Hc). f_equal.
    apply ShapeFacts.strip_underscored; auto. apply ShapeFacts.alnum_uppered_plain.
  - rewrite Hlow. unfold Js.toLowerCase. simpl.
    rewrite (ShapeFacts.upper_lowered_plain c0 Hc). f_equal.
    apply ShapeFacts.strip_underscored; auto. apply ShapeFacts.alnum_lowered_plain.
Qed.

(** Witness for X2: HTTPServer2 becomes H_T_T_P_SERVER2 and h_t_t_p_server2. *)
Lemma snake_puts_underscore_before_each_capital_witness :
  styleNames "HTTPServer2" upper_snake = "H_T_T_P_SERVER2" /\
  styleNames "HTTPServer2" lower_snake = "h_t_t_p_server2".
Proof.
  pose proof (snake_puts_underscore_before_each_capital "H" "TTPServer2" eq_refl)
    as (Hup & Hlow & _).
  split; [exact Hup | exact Hlow].
Defined.

(** X3: under each style, different PascalCase names get different
    binding names, so no two classes are ever given the same name. *)
Theorem styleNames_injective (style : NamingStyle) (name1 name2 : string) :
  Re.test Pattern.pascalCase name1 = true ->
  Re.test Pattern.pascalCase name2 = true ->
  styleNames name1 style = styleNames name2 style ->
  name1 = name2.
Proof.
  intros H1 H2 Heq.
  destruct (TranscoderFacts.pascal_shape _ H1) as (c1 & r1 & -> & Hc1 & Hr1).
  destruct (TranscoderFacts.pascal_shape _ H2) as (c2 & r2 & -> & Hc2 & Hr2).
  destruct style.
  - rewrite !ShapeFacts.camel_shape in Heq by assumption.
    inversion Heq; subst. f_equal. apply ShapeFacts.lowered_inj; auto.
  - exact Heq.
  - unfold styleNames, Js.toUpperCase in Heq.
    rewrite !ShapeFacts.snake_shape in Heq by auto.
    simpl in Heq. inversion Heq as [[Hc Hr]].
    rewrite (ShapeFacts.upper_uppered_same c1 Hc1),
      (ShapeFacts.upper_uppered_same c2 Hc2) in Hc.
    subst. f_equal. apply ShapeFacts.upper_snake_inj; auto.
  - unfold styleNames, Js.toLowerCase in Heq.
    rewrite !ShapeFacts.snake_shape in Heq by auto.
    simpl in Heq. inversion Heq as [[Hc Hr]].
    f_equal; [apply ShapeFacts.lowered_inj; auto |].
    apply ShapeFacts.lower_snake_inj; auto.
Qed.

(** Witness for X3: a name that renders like FooBar in lower_snake_case
    is FooBar. *)
Lemma styleNames_injective_witness : "FooBar" = "FooBar".
Proof.
  apply (styleNames_injective lower_snake "FooBar" "FooBar");
    reflexivity.
Defined.

(** ** The shape of classified categories *)

Module ShapeOfCategories.
Import Js Re ReFacts StringFacts.

Lemma contains_app c s1 s2 : contains c (s1 ++ s2) = contains c s1 || contains c s2.
Proof. induction s1 as [| d s1 IH]; simpl; [reflexivity |]. now rewrite IH, orb_assoc. Qed.

Lemma wordChar_not_plain_alnum c :
  alnum c = true -> Ascii.eqb c "_" = false.
Proof. each_code_unit c. Qed.

Lemma alnum_free s : allChars alnum s = true -> contains "_" s = false.
Proof.
  induction s as [| d s IH]; simpl; [reflexivity |].
  intro H. apply andb_true_iff in H as [Hd Hs].
  now rewrite (wordChar_not_plain_alnum d Hd), IH.
Qed.

Lemma free_alnum s :
  allChars wordChar s = true -> contains "_" s = false -> allChars alnum s = true.
Proof.
  induction s as [| d s IH]; simpl; [reflexivity |].
  intros H Hf. apply andb_true_iff in H as [Hd Hs].
  apply orb_false_iff in Hf as [Hd' Hf]. rewrite IH by assumption.
  unfold wordChar in Hd. unfold alnum. rewrite Hd' in Hd.
  rewrite orb_false_r in Hd. now rewrite Hd.
Qed.

Lemma upperOrDigit_is_alnum c : upperOrDigit c = true -> alnum c = true.
Proof. each_code_unit c. Qed.

(** What passing the pattern of a style means for a name. *)
Lemma pattern_shape style nm :
  test (Pattern.forStyle style) nm = true ->
  startsWith (initialOf style) nm = true /\
  allChars wordChar nm = true /\
  (isSnake style = false -> allChars alnum nm = true).
Proof.
  intro H. split; [| split].
  - apply test_Matches in H.
    destruct style; apply Matches_Class_head in H as (c & s' & -> & Hc & _); simpl;
      unfold initialOf; simpl;
      first [now rewrite <- class_lower | now rewrite <- class_upper].
  - apply test_Matches, Matches_mayContain in H.
    eapply allChars_impl; [| exact H]. apply style_alphabet.
  - intro Hs. apply test_Matches in H.
    destruct style; try discriminate;
      apply Matches_Class_head in H as (c & s' & -> & Hc & Hr);
      apply Matches_Star_Class in Hr;
      rewrite (allChars_ext _ _ _ class_alnum) in Hr; simpl; rewrite Hr, andb_true_r.
    + rewrite class_lower in Hc. unfold alnum. now rewrite Hc.
    + rewrite class_upper in Hc. apply upper_is_alnum, Hc.
Qed.

Lemma Matches_Star_prefixed c r s :
  Matches (Star (Seq (Chr c) r)) s -> s = "" \/ exists t, s = String c t.
Proof.
  intro H. remember (Star (Seq (Chr c) r)) as r' eqn:Er.
  induction H; try discriminate; [auto |].
  inversion Er; subst. right.
  inversion H; subst.
  match goal with M : Matches (Chr _) _ |- _ => inversion M; subst end.
  simpl. eauto.
Qed.

(** A name that passes a snake pattern and has no underscore is a single
    word: a head and a run of body code units. *)
Lemma snake_single hd body s :
  Matches (Seq (Class hd)
             (Seq (Star (Class body)) (Star (Seq (Chr "_") (Plus (Class body)))))) s ->
  contains "_" s = false ->
  Matches (Seq (Class hd) (Star (Class body))) s.
Proof.
  intros H Hfree. apply Matches_Class_head in H as (c & s' & -> & Hc & Hr).
  apply Matches_Class_head. exists c, s'. split; [reflexivity | split; [exact Hc |]].
  inversion Hr; subst.
  match goal with M : Matches (Star (Seq _ _)) _ |- _ =>
    apply Matches_Star_prefixed in M as [-> | (t & ->)] end.
  - now rewrite append_nil_r.
  - exfalso. simpl in Hfree. apply orb_false_iff in Hfree as [_ Hfree].
    rewrite contains_app in Hfree. simpl in Hfree.
    rewrite orb_true_r in Hfree. discriminate.
Qed.

Lemma upper_snake_single s :
  test Pattern.upperSnakeCase s = true -> contains "_" s = false ->
  test Pattern.pascalCase s = true.
Proof.
  intros H Hfree. apply test_Matches in H. apply snake_single in H; [| exact Hfree].
  apply test_Matches. apply Matches_Class_head in H as (c & s' & -> & Hc & Hr).
  apply Matches_Class_head. exists c, s'. split; [reflexivity | split; [exact Hc |]].
  apply Matches_Star_Class. apply Matches_Star_Class in Hr.
  eapply allChars_impl; [| exact Hr].
  intro d. rewrite class_upperOrDigit, class_alnum. apply upperOrDigit_is_alnum.
Qed.

Lemma lower_snake_single s :
  test Pattern.lowerSnakeCase s = true -> contains "_" s = false ->
  test Pattern.camelCase s = true.
Proof.
  intros H Hfree. apply test_Matches in H. apply snake_single in H; [| exact Hfree].
  apply test_Matches. apply Matches_Class_head in H as (c & s' & -> & Hc & Hr).
  apply Matches_Class_head. exists c, s'. split; [reflexivity | split; [exact Hc |]].
  apply Matches_Star_Class. apply Matches_Star_Class in Hr.
  eapply allChars_impl; [| exact Hr].
  intro d. rewrite class_lowerOrDigit, class_alnum. apply lowerOrDigit_alnum.
Qed.

Lemma everyMatches_names r items :
  everyMatches r items = forallb (test r) (namesOf items).
Proof.
  unfold everyMatches, namesOf. induction items as [| i items IH]; simpl; [reflexivity |].
  now rewrite IH.
Qed.

Lemma forallb_same_set {A} (f : A -> bool) l l' :
  (forall x, In x l <-> In x l') -> forallb f l = forallb f l'.
Proof.
  intro Hset. destruct (forallb f l) eqn:E; symmetry.
  - rewrite forallb_forall in *. intros x Hx. apply E, Hset, Hx.
  - destruct (forallb f l') eqn:E'; [| reflexivity].
    rewrite forallb_forall in E'.
    assert (forallb f l = true) by (apply forallb_forall; intros x Hx; apply E', Hset, Hx).
    congruence.
Qed.

End ShapeOfCategories.

(** X4: when a category is classified, it is not empty and every one of
    its names starts with a letter in the case of the style (lower for camel
    and lower_snake, upper for pascal and upper_snake) and consists of
    letters, digits and underscores, without underscores under camel and
    pascal.  So an empty name, a name starting with a digit or an underscore,
    a name with a dash or a dot, or names of both initial cases side by side
    leave the category unclassified. *)
Theorem classified_category_shape (items : list NamedItem) (style : NamingStyle) :
  getNamingStyleFromNamedItems items = Some style ->
  items <> [] /\
  forall item,
    In item items ->
    startsWith (initialOf style) (binding item) = true /\
    allChars wordChar (binding item) = true /\
    (isSnake style = false -> contains "_" (binding item) = false).
Proof.
  intro H. apply ClassifierFacts.named_items_Some in H as (Hne & Hu & _).
  split; [exact Hne |]. intros item Hin.
  unfold unanimous, everyMatches in Hu. rewrite forallb_forall in Hu.
  destruct (ShapeOfCategories.pattern_shape style (binding item) (Hu item Hin))
    as (Hs & Hw & Ha).
  split; [exact Hs | split; [exact Hw |]].
  intro Hsn. apply ShapeOfCategories.alnum_free, Ha, Hsn.
Qed.

(** Witness for X4: the category ["KV_ONE"; "KV_TWO"]. *)
Lemma classified_category_shape_witness :
  itemsOf ["KV_ONE"; "KV_TWO"] <> [] /\
  forall item,
    In item (itemsOf ["KV_ONE"; "KV_TWO"]) ->
    startsWith (initialOf upper_snake) (binding item) = true /\
    allChars wordChar (binding item) = true /\
    (isSnake upper_snake = false -> contains "_" (binding item) = false).
Proof.
  apply (classified_category_shape (itemsOf ["KV_ONE"; "KV_TWO"]) upper_snake).
  reflexivity.
Defined.

(** X5: a snake style is answered only when some name of the category
    does contain an underscore; names without any are classified camel or
    pascal. *)
Theorem snake_needs_an_underscore (items : list NamedItem) (style : NamingStyle) :
  getNamingStyleFromNamedItems items = Some style ->
  isSnake style = true ->
  exists item, In item items /\ contains "_" (binding item) = true.
Proof.
  intros H Hsn. apply ClassifierFacts.named_items_Some in H as (Hne & Hu & Hmin).
  destruct (existsb (fun item => contains "_" (binding item)) items) eqn:E.
  - apply existsb_exists in E as (item & Hin & Hc). eauto.
  - exfalso.
    assert (Hfree : forall item, In item items -> contains "_" (binding item) = false).
    { intros item Hin. destruct (contains "_" (binding item)) eqn:Ec; [| reflexivity].
      assert (existsb (fun item => contains "_" (binding item)) items = true)
        by (apply existsb_exists; eauto).
      congruence. }
    unfold unanimous, everyMatches in Hu. rewrite forallb_forall in Hu.
    destruct style; try discriminate.
    + assert (Hp : unanimous pascal items).
      { unfold unanimous, everyMatches. apply forallb_forall. intros item Hin.
        apply ShapeOfCategories.upper_snake_single; auto. }
      specialize (Hmin pascal Hp). simpl in Hmin. lia.
    + assert (Hc : unanimous camel items).
      { unfold unanimous, everyMatches. apply forallb_forall. intros item Hin.
        apply ShapeOfCategories.lower_snake_single; auto. }
      specialize (Hmin camel Hc). simpl in Hmin. lia.
Qed.

(** Witness for X5: in ["db"; "user_db"] the name user_db has one. *)
Lemma snake_needs_an_underscore_witness :
  exists item, In item (itemsOf ["db"; "user_db"]) /\ contains "_" (binding item) = true.
Proof.
  apply (snake_needs_an_underscore (itemsOf ["db"; "user_db"]) lower_snake);
    reflexivity.
Defined.

(** X6: the classification of a category depends on the set of its names
    only, not on their order nor on repetitions. *)
Theorem classification_depends_on_name_set (items items' : list NamedItem) :
  (forall n, In n (namesOf items) <-> In n (namesOf items')) ->
  getNamingStyleFromNamedItems items = getNamingStyleFromNamedItems items'.
Proof.
  intro Hset. unfold getNamingStyleFromNamedItems.
  rewrite !ShapeOfCategories.everyMatches_names.
  rewrite !(ShapeOfCategories.forallb_same_set _ _ _ Hset).
  destruct items as [| i items], items' as [| i' items']; try reflexivity.
  - exfalso. apply (Hset (binding i')). left. reflexivity.
  - exfalso. apply (Hset (binding i)). left. reflexivity.
Qed.

(** Witness for X6: ["b_c"; "a"; "b_c"] and ["a"; "b_c"]. *)
Lemma classification_depends_on_name_set_witness :
  getNamingStyleFromNamedItems (itemsOf ["b_c"; "a"; "b_c"])
  = getNamingStyleFromNamedItems (itemsOf ["a"; "b_c"]).
Proof.
  apply (classification_depends_on_name_set
           (itemsOf ["b_c"; "a"; "b_c"]) (itemsOf ["a"; "b_c"])).
  intro n. simpl. tauto.
Defined.

(** X7: when the PascalCase names of a nonempty list are transcoded under
    a style, the classifier finds a style for the resulting names: the same
    one for camel and pascal, and for a snake style that one or, when no
    underscore came about, its single-word neighbour (pascal for upper_snake,
    camel for lower_snake). *)
Theorem transcoded_names_are_classified (names : list string) (style : NamingStyle) :
  names <> [] ->
  forallb (Re.test Pattern.pascalCase) names = true ->
  exists style',
    getNamingStyleFromNamedItems (itemsOf (map (fun n => styleNames n style) names))
    = Some style' /\
    rank style' <= rank style /\
    lowerInitial style' = lowerInitial style.
Proof.
  intros Hne Hall.
  set (items := itemsOf (map (fun n => styleNames n style) names)).
  assert (Hu : unanimous style items).
  { unfold unanimous, everyMatches, items, itemsOf. rewrite !forallb_forall.
    intros item Hin. apply in_map_iff in Hin as (out & <- & Hin).
    apply in_map_iff in Hin as (n & <- & Hin). simpl.
    apply TranscoderFacts.styleNames_test.
    rewrite forallb_forall in Hall. auto. }
  assert (Hitems : items <> []).
  { unfold items, itemsOf. destruct names; [congruence | discriminate]. }
  destruct (ClassifierFacts.named_items_total items style Hitems Hu) as [style' Hs'].
  exists style'. split; [exact Hs' |].
  apply ClassifierFacts.named_items_Some in Hs' as (_ & Hu' & Hmin).
  split; [apply Hmin, Hu |].
  destruct items as [| item items']; [congruence |].
  unfold unanimous, everyMatches in Hu, Hu'. simpl in Hu, Hu'.
  apply andb_true_iff in Hu as [Hu _]. apply andb_true_iff in Hu' as [Hu' _].
  apply ShapeOfCategories.pattern_shape in Hu as (Hs & _).
  apply ShapeOfCategories.pattern_shape in Hu' as (Hs' & _).
  destruct (binding item) as [| c s]; [discriminate |].
  unfold initialOf in Hs, Hs'. simpl in Hs, Hs'.
  destruct (lowerInitial style), (lowerInitial style'); try reflexivity; exfalso.
  - rewrite (OverlapFacts.upper_not_lower c Hs') in Hs. discriminate.
  - rewrite (OverlapFacts.upper_not_lower c Hs) in Hs'. discriminate.
Qed.

(** Witness for X7: Counter and Lobby under upper_snake give COUNTER and
    LOBBY, which the classifier reads as pascal. *)
Lemma transcoded_names_are_classified_witness :
  exists style',
    getNamingStyleFromNamedItems
      (itemsOf (map (fun n => styleNames n upper_snake) ["Counter"; "Lobby"]))
    = Some style' /\
    rank style' <= rank upper_snake /\
    lowerInitial style' = lowerInitial upper_snake.
Proof.
  apply (transcoded_names_are_classified ["Counter"; "Lobby"] upper_snake).
  - discriminate.
  - reflexivity.
Defined.

(** ** The setup and the ways a run ends *)

Module EndFacts.
Import ScriptFacts RunFacts.

Lemma trimStart_blank s :
  Js.trimStart s = "" <-> allChars Js.isWhiteSpace s = true.
Proof.
  induction s as [| c s IH]; simpl; [tauto |].
  destruct (Js.isWhiteSpace c); simpl; [exact IH |]. split; discriminate.
Qed.

Lemma trimStart_head s c t :
  Js.trimStart s = String c t -> Js.isWhiteSpace c = false.
Proof.
  induction s as [| d s IH]; simpl; [discriminate |].
  destruct (Js.isWhiteSpace d) eqn:E; [exact IH |].
  intro H. inversion H; subst. exact E.
Qed.

Lemma trimEnd_head c t :
  Js.isWhiteSpace c = false -> exists t', Js.trimEnd (String c t) = String c t'.
Proof.
  intro Hc. simpl. destruct (Js.trimEnd t); [rewrite Hc |]; eauto.
Qed.

Lemma trimEnd_endsClean s : endsClean (Js.trimEnd s) = true.
Proof.
  induction s as [| c s IH]; simpl; [reflexivity |].
  destruct (Js.trimEnd s) as [| d t] eqn:E.
  - destruct (Js.isWhiteSpace c) eqn:Ec; simpl; [reflexivity | now rewrite Ec].
  - exact IH.
Qed.

Lemma trim_blank s : Js.trim s = "" <-> allChars Js.isWhiteSpace s = true.
Proof.
  unfold Js.trim. split.
  - intro H. destruct (Js.trimStart s) as [| c t] eqn:E.
    + apply trimStart_blank, E.
    + exfalso. destruct (trimEnd_head c t (trimStart_head _ _ _ E)) as [t' Ht'].
      congruence.
  - intro H. apply trimStart_blank in H. now rewrite H.
Qed.

Lemma trim_clean s :
  Js.trim s <> "" ->
  startsWith (fun c => negb (Js.isWhiteSpace c)) (Js.trim s) = true /\
  endsClean (Js.trim s) = true.
Proof.
  intro Hne. split; [| apply trimEnd_endsClean].
  unfold Js.trim in *. destruct (Js.trimStart s) as [| c t] eqn:E; [contradiction |].
  pose proof (trimStart_head _ _ _ E) as Hc.
  destruct (trimEnd_head c t Hc) as [t' Ht']. rewrite Ht'. simpl. now rewrite Hc.
Qed.

Lemma length_zero s : Nat.ltb 0 (String.length s) = false <-> s = "".
Proof. destruct s; unfold Nat.ltb; simpl; split; intro H; congruence. Qed.

(** The setup stops with one of five errors, the first of them exactly
    when node printed nothing but white space. *)
Lemma setup_errors config w t h :
  defaultTypeOf config w = (t, inr h) ->
  exists message,
    h = thrown message /\
    In message (firstn 5 errorMessages) /\
    (message = "TypeScript must be installed to use this command" <->
     allChars Js.isWhiteSpace (nodeStdout w) = true).
Proof.
  unfold defaultTypeOf, createTypescript, findTypeScriptPath.
  unfold bind, ask, ret, orBail, bail, halt. simpl.
  destruct (Nat.ltb 0 (String.length (Js.trim (nodeStdout w)))) eqn:El; simpl.
  - assert (Hnb : allChars Js.isWhiteSpace (nodeStdout w) <> true).
    { intro Hb. apply trim_blank in Hb. rewrite Hb in El. discriminate. }
    destruct (main config); simpl;
      [| intro H; inversion H; subst; eexists; split; [reflexivity |];
         split; [simpl; auto 6 | split; [discriminate | intro; contradiction]]].
    destruct (Ts.getSourceFile (program w) "/declare/resolver.ts") as [sf |]; simpl;
      [| intro H; inversion H; subst; eexists; split; [reflexivity |];
         split; [simpl; auto 6 | split; [discriminate | intro; contradiction]]].
    destruct (Ts.symbol sf) as [ms |]; simpl;
      [| intro H; inversion H; subst; eexists; split; [reflexivity |];
         split; [simpl; auto 6 | split; [discriminate | intro; contradiction]]].
    destruct (find _ (Ts.exports ms)); simpl;
      [discriminate
      | intro H; inversion H; subst; eexists; split; [reflexivity |];
        split; [simpl; auto 6 | split; [discriminate | intro; contradiction]]].
  - intro H; inversion H; subst. eexists; split; [reflexivity |].
    split; [simpl; auto |]. split; [intros _ | reflexivity].
    apply trim_blank, length_zero, El.
Qed.

Lemma setup_blank config w :
  allChars Js.isWhiteSpace (nodeStdout w) = true ->
  defaultTypeOf config w
  = ([], inr (thrown "TypeScript must be installed to use this command")).
Proof.
  intro Hb. apply trim_blank in Hb.
  unfold defaultTypeOf, createTypescript, findTypeScriptPath.
  unfold bind, ask, ret, orBail, bail, halt. simpl. rewrite Hb. reflexivity.
Qed.

Lemma script_setup_error w t h :
  defaultTypeOf (readConfig w) w = (t, inr h) -> script w = ([], inr h).
Proof.
  intro Hd. destruct (defaultTypeOf_run (readConfig w) w) as (r & Hr & _).
  rewrite Hr in Hd. inversion Hd; subst.
  unfold script, bind, ask. cbv beta iota zeta. rewrite Hr. reflexivity.
Qed.

Lemma prompts_quiet config w items :
  prompts (report items) = [] /\
  prompts (styleEvents config w)
  = match detectedStyle config keys with Some _ => [] | None => [stylePrompt] end.
Proof.
  split.
  - apply filter_none. intros e H. apply (report_quiet items e H).
  - unfold styleEvents. destruct (detectedStyle config keys); reflexivity.
Qed.

End EndFacts.

Module ThrowFacts.
Import ScriptFacts RunFacts EndFacts.

(** Where a thrown error comes from. *)
Lemma thrown_cases w message :
  outcome w = inr (thrown message) ->
  (trace w = [] /\
   exists t, defaultTypeOf (readConfig w) w = (t, inr (thrown message))) \/
  (trace w = [] /\ netNew w None /\
   message = "No Durable Objects found in your Worker") \/
  (message = "No config path found" /\ configPath (readConfig w) = None /\
   confirmAnswer w = Answered true /\
   exists items,
     netNew w (Some items) /\
     trace w = ((report items ++ styleEvents (readConfig w) w)
                ++ [prompt_confirm (confirmMessage (length items))])%list).
Proof.
  intro Ho. destruct (defaultTypeOf_run (readConfig w) w) as (r & Hr & Hok).
  destruct r as [[checker defaultType] | h].
  - destruct (netNewItems (readConfig w) checker defaultType) as [items |] eqn:Hn.
    + assert (Hnet : netNew w (Some items)) by (exists checker, defaultType; auto).
      right; right. unfold outcome, trace in *.
      rewrite (netNew_script w _ Hnet), declare_run in *.
      destruct (resolvedStyle (readConfig w) w) as [style |]; [| discriminate].
      cbv zeta in *. destruct (confirmAnswer w) as [| [|]]; try discriminate.
      destruct (configPath (readConfig w)); [discriminate |].
      cbn [fst snd] in *. inversion Ho; subst.
      repeat split; auto. exists items. split; [exact Hnet |].
      rewrite <- !app_assoc. reflexivity.
    + assert (Hnet : netNew w None) by (exists checker, defaultType; auto).
      right; left. unfold outcome, trace in *.
      rewrite (netNew_script w _ Hnet) in *. cbn in Ho |- *.
      inversion Ho; subst. auto.
  - left. unfold outcome, trace in *. rewrite (script_setup_error w _ _ Hr) in *.
    cbn [fst snd] in *. inversion Ho; subst. split; [reflexivity | eauto].
Qed.

End ThrowFacts.

(** X8: the TypeScript path is missing exactly when node printed nothing
    or white space only; then, and only then, the run stops with "TypeScript
    must be installed to use this command", before anything is shown.
    Otherwise the path is what node printed without the white space around
    it. *)
Theorem typescript_path_blank_or_trimmed (w : World) :
  findTypeScriptPath w
  = ([], inl (if allChars Js.isWhiteSpace (nodeStdout w)
              then None else Some (Js.trim (nodeStdout w)))) /\
  (allChars Js.isWhiteSpace (nodeStdout w) = false ->
   startsWith (fun c => negb (Js.isWhiteSpace c)) (Js.trim (nodeStdout w)) = true /\
   endsClean (Js.trim (nodeStdout w)) = true) /\
  (allChars Js.isWhiteSpace (nodeStdout w) = true <->
   outcome w = inr (thrown "TypeScript must be installed to use this command")) /\
  (allChars Js.isWhiteSpace (nodeStdout w) = true -> trace w = []).
Proof.
  assert (Hrun : allChars Js.isWhiteSpace (nodeStdout w) = true ->
                 script w = ([], inr (thrown "TypeScript must be installed to use this command"))).
  { intro Hb. eapply EndFacts.script_setup_error. apply EndFacts.setup_blank, Hb. }
  split; [| split; [| split]].
  - unfold findTypeScriptPath, bind, ask, ret. simpl.
    destruct (allChars Js.isWhiteSpace (nodeStdout w)) eqn:Hb.
    + apply EndFacts.trim_blank in Hb. now rewrite Hb.
    + destruct (Nat.ltb 0 (String.length (Js.trim (nodeStdout w)))) eqn:El; [reflexivity |].
      apply EndFacts.length_zero, EndFacts.trim_blank in El. congruence.
  - intro Hb. apply EndFacts.trim_clean. intro He.
    apply EndFacts.trim_blank in He. congruence.
  - split.
    + intro Hb. unfold outcome. now rewrite (Hrun Hb).
    + intro Ho. apply ThrowFacts.thrown_cases in Ho
        as [(_ & t & Hd) | [(_ & _ & Hm) | (Hm & _)]]; try discriminate.
      apply EndFacts.setup_errors in Hd as (m & Hh & _ & Hiff).
      inversion Hh; subst. apply Hiff. reflexivity.
  - intro Hb. unfold trace. now rewrite (Hrun Hb).
Qed.

(** Witness for X8: node prints a line break only. *)
Lemma typescript_path_blank_or_trimmed_witness :
  outcome {| readConfig := sampleConfig [] [];
             nodeStdout := String (ascii_of_nat 10) "";
             program := sampleProgram (Ts.Other "never");
             dim := fun text => text;
             selectAnswer := Cancelled;
             confirmAnswer := Cancelled;
             toISOString := "2025-01-01T00:00:00.000Z" |}
  = inr (thrown "TypeScript must be installed to use this command").
Proof.
  apply (proj1 (proj1 (proj2 (proj2 (typescript_path_blank_or_trimmed
           {| readConfig := sampleConfig [] [];
              nodeStdout := String (ascii_of_nat 10) "";
              program := sampleProgram (Ts.Other "never");
              dim := fun text => text;
              selectAnswer := Cancelled;
              confirmAnswer := Cancelled;
              toISOString := "2025-01-01T00:00:00.000Z" |}))))).
  reflexivity.
Defined.

(** X9: when a run ends with one of the seven errors the script raises
    itself, [patchConfig] has not been called and the status is 1; the six
    errors of the setup are raised before anything is shown or asked,
    whereas "No config path found" is raised only after the operator has
    answered yes to the confirmation, that prompt being the last thing that
    happened. *)
Theorem script_errors_leave_the_config_alone (w : World) (message : string) :
  outcome w = inr (thrown message) ->
  In message errorMessages ->
  patchCalls (trace w) = [] /\
  exitStatus (outcome w) = 1 /\
  (message <> "No config path found" -> trace w = []) /\
  (message = "No config path found" ->
   configPath (readConfig w) = None /\ confirmAnswer w = Answered true /\
   exists before message', trace w = (before ++ [prompt_confirm message'])%list).
Proof.
  intros Ho _. split; [| split; [now rewrite Ho |]].
  - apply ThrowFacts.thrown_cases in Ho
      as [(Ht & _) | [(Ht & _) | (_ & _ & _ & items & _ & Ht)]]; rewrite Ht;
      [reflexivity | reflexivity | apply RunFacts.patchCalls_shown].
  - split.
    + intro Hne. apply ThrowFacts.thrown_cases in Ho
        as [(Ht & _) | [(Ht & _) | (Hm & _)]]; [exact Ht | exact Ht | contradiction].
    + intros ->. apply ThrowFacts.thrown_cases in Ho
        as [(_ & t & Hd) | [(_ & _ & Hm) | (_ & Hp & Hy & items & _ & Ht)]].
      * apply EndFacts.setup_errors in Hd as (m & Hh & Hin & _).
        inversion Hh; subst. simpl in Hin.
        exfalso. repeat (destruct Hin as [Hin | Hin]; [discriminate |]). exact Hin.
      * discriminate.
      * split; [exact Hp | split; [exact Hy |]]. rewrite Ht. eauto.
Qed.

(** Witness for X9: a configuration without a path, the operator answers
    yes. *)
Lemma script_errors_leave_the_config_alone_witness :
  patchCalls (trace {| readConfig :=
                         {| configPath := None; main := Some "src/index.ts";
                            kv_namespaces := None; services := None;
                            d1_databases := None; vectorize := None;
                            durable_objects := {| bindings := [] |} |};
                       nodeStdout := "/app/node_modules/typescript/lib/typescript.js";
                       program := sampleProgram (Ts.StringLiteral "Counter");
                       dim := fun text => text;
                       selectAnswer := Answered camel;
                       confirmAnswer := Answered true;
                       toISOString := "2025-01-01T00:00:00.000Z" |}) = [].
Proof.
  apply (script_errors_leave_the_config_alone
           {| readConfig :=
                {| configPath := None; main := Some "src/index.ts";
                   kv_namespaces := None; services := None;
                   d1_databases := None; vectorize := None;
                   durable_objects := {| bindings := [] |} |};
              nodeStdout := "/app/node_modules/typescript/lib/typescript.js";
              program := sampleProgram (Ts.StringLiteral "Counter");
              dim := fun text => text;
              selectAnswer := Answered camel;
              confirmAnswer := Answered true;
              toISOString := "2025-01-01T00:00:00.000Z" |}
           "No config path found").
  - reflexivity.
  - simpl. tauto.
Defined.

(** X10: a run ends with status 0 only when the confirmation prompt was
    shown and was either answered no, [patchConfig] not being called, or
    answered yes with a config path at hand, [patchConfig] being called once:
    no run ends with status 0 without having asked. *)
Theorem exit_zero_means_asked (w : World) :
  exitStatus (outcome w) = 0 ->
  (exists message, In (prompt_confirm message) (trace w)) /\
  ((confirmAnswer w = Answered false /\ patchCalls (trace w) = []) \/
   (confirmAnswer w = Answered true /\ configPath (readConfig w) <> None /\
    length (patchCalls (trace w)) = 1)).
Proof.
  RunFacts.runs w; intro H; try (simpl in H; discriminate H).
  - split.
    + eexists. apply in_app_iff. right. left. reflexivity.
    + left. split; [exact Hans | apply RunFacts.patchCalls_shown].
  - split.
    + eexists. apply in_app_iff. left. apply in_app_iff. right. left. reflexivity.
    + right. split; [exact Hans | split; [congruence |]].
      rewrite RunFacts.patchCalls_patched. reflexivity.
Qed.

(** Witness for X10: one net-new class, the operator answers no. *)
Lemma exit_zero_means_asked_witness :
  exists message,
    In (prompt_confirm message)
       (trace (sampleWorld (literals ["Counter"; "ChatRoom"]) ["KV_ONE"] ["Counter"]
                 Cancelled (Answered false))).
Proof.
  apply (exit_zero_means_asked
           (sampleWorld (literals ["Counter"; "ChatRoom"]) ["KV_ONE"] ["Counter"]
              Cancelled (Answered false))).
  reflexivity.
Defined.

(** X11: the style prompt is shown only when no category decides the
    style, at most once, and always before the confirmation prompt, which is
    shown at most once too and only once a style is there; after a cancelled
    style prompt no confirmation is asked. *)
Theorem prompts_in_order (w : World) :
  match detectedStyle (readConfig w) keys with
  | Some _ =>
      prompts (trace w) = [] \/
      exists n, prompts (trace w) = [prompt_confirm (confirmMessage n)]
  | None =>
      prompts (trace w) = [] \/
      (prompts (trace w) = [stylePrompt] /\ selectAnswer w = Cancelled) \/
      (exists n style,
         prompts (trace w) = [stylePrompt; prompt_confirm (confirmMessage n)] /\
         selectAnswer w = Answered style)
  end.
Proof.
  assert (Hq : forall items,
             prompts (report items ++ styleEvents (readConfig w) w)
             = match detectedStyle (readConfig w) keys with
               | Some _ => []
               | None => [stylePrompt]
               end).
  { intro items. unfold prompts. rewrite filter_app.
    destruct (EndFacts.prompts_quiet (readConfig w) w items) as [Hr Hs].
    unfold prompts in Hr, Hs. rewrite Hr, Hs. reflexivity. }
  assert (Hshown : forall items message,
             prompts ((report items ++ styleEvents (readConfig w) w)
                      ++ [prompt_confirm message])
             = (match detectedStyle (readConfig w) keys with
                | Some _ => []
                | None => [stylePrompt]
                end ++ [prompt_confirm message])%list).
  { intros items message. unfold prompts at 1. rewrite filter_app.
    fold (prompts (report items ++ styleEvents (readConfig w) w)). rewrite Hq.
    reflexivity. }
  assert (Hpatched : forall items message path patch,
             prompts (((report items ++ styleEvents (readConfig w) w)
                       ++ [prompt_confirm message]) ++ [patchConfig path patch])
             = (match detectedStyle (readConfig w) keys with
                | Some _ => []
                | None => [stylePrompt]
                end ++ [prompt_confirm message])%list).
  { intros items message path patch. unfold prompts at 1. rewrite filter_app.
    fold (prompts ((report items ++ styleEvents (readConfig w) w)
                   ++ [prompt_confirm message])).
    rewrite Hshown. simpl. apply app_nil_r. }
  RunFacts.runs w; rewrite ?Hq, ?Hshown, ?Hpatched.
  - destruct (detectedStyle (readConfig w) keys); auto.
  - destruct (ScriptFacts.resolvedStyle_None _ _ Hstyle) as (Hd & Hc & _).
    rewrite Hd. auto.
  - destruct (detectedStyle (readConfig w) keys) eqn:Hd; simpl; [eauto |].
    right; right. pose proof (ScriptFacts.resolvedStyle_prompt _ _ _ Hstyle Hd). eauto.
  - destruct (detectedStyle (readConfig w) keys) eqn:Hd; simpl; [eauto |].
    right; right. pose proof (ScriptFacts.resolvedStyle_prompt _ _ _ Hstyle Hd). eauto.
  - destruct (detectedStyle (readConfig w) keys) eqn:Hd; simpl; [eauto |].
    right; right. pose proof (ScriptFacts.resolvedStyle_prompt _ _ _ Hstyle Hd). eauto.
  - destruct (detectedStyle (readConfig w) keys) eqn:Hd; simpl; [eauto |].
    right; right. pose proof (ScriptFacts.resolvedStyle_prompt _ _ _ Hstyle Hd). eauto.
Qed.

(** X12: what [patchConfig] receives goes to the configuration's own
    path; no class it declares bears the name of an existing durable-object
    binding; its migration lists the classes of its bindings, in the same
    order; and the number of bindings is the number that was reported and
    that the operator confirmed. *)
Theorem patch_declares_new_classes_only (w : World) (path : string) (patch : ConfigPatch) :
  In (patchConfig path patch) (trace w) ->
  configPath (readConfig w) = Some path /\
  (forall b,
     In b (bindings (patch_durable_objects patch)) ->
     ~ In (class_name b) (map name (bindings (durable_objects (readConfig w))))) /\
  (exists m,
     patch_migrations patch = [m] /\
     new_sqlite_classes m = map class_name (bindings (patch_durable_objects patch))) /\
  In (console_warn (foundMessage (length (bindings (patch_durable_objects patch)))))
     (trace w) /\
  In (prompt_confirm (confirmMessage (length (bindings (patch_durable_objects patch)))))
     (trace w).
Proof.
  intro Hin. RunFacts.runs w; rewrite ?Ht in Hin.
  - destruct Hin.
  - apply RunFacts.not_patch_in_quiet in Hin. destruct Hin.
  - exfalso. apply RunFacts.in_shown in Hin as [Hin | Hin]; [| discriminate].
    apply RunFacts.not_patch_in_quiet in Hin. exact Hin.
  - exfalso. apply RunFacts.in_shown in Hin as [Hin | Hin]; [| discriminate].
    apply RunFacts.not_patch_in_quiet in Hin. exact Hin.
  - exfalso. apply RunFacts.in_shown in Hin as [Hin | Hin]; [| discriminate].
    apply RunFacts.not_patch_in_quiet in Hin. exact Hin.
  - apply RunFacts.in_patched in Hin as [Hin | [Hin | Hin]]; try discriminate.
    + apply RunFacts.not_patch_in_quiet in Hin. destruct Hin.
    + inversion Hin; subst. clear Hin.
      unfold patchOf. cbn [patch_durable_objects bindings patch_migrations].
      rewrite length_map.
      split; [exact Hpath | split; [| split; [| split]]].
      * intros b Hb. apply in_map_iff in Hb as (it & <- & Hit).
        cbn [class_name].
        destruct Hnet as (checker & defaultType & _ & Hn).
        unfold netNewItems in Hn.
        destruct (itemsOfDefaultType checker defaultType) as [cands |]; [| discriminate].
        cbn [option_map] in Hn. inversion Hn; subst.
        apply ReconcileFacts.withoutExisting_In in Hit. tauto.
      * eexists. split; [reflexivity |]. cbn [new_sqlite_classes].
        rewrite map_map. cbn [class_name]. symmetry. apply map_id.
      * apply in_app_iff. left. apply in_app_iff. left. apply in_app_iff. left.
        unfold report. left. reflexivity.
      * apply in_app_iff. left. apply in_app_iff. right. left. reflexivity.
Qed.

(** Witness for X12: Counter and ChatRoom discovered, Counter declared,
    confirmed. *)
Lemma patch_declares_new_classes_only_witness :
  configPath (readConfig (sampleWorld (literals ["Counter"; "ChatRoom"]) ["KV_ONE"]
                            ["Counter"] Cancelled (Answered true)))
  = Some "wrangler.jsonc".
Proof.
  apply (patch_declares_new_classes_only
           (sampleWorld (literals ["Counter"; "ChatRoom"]) ["KV_ONE"] ["Counter"]
              Cancelled (Answered true))
           "wrangler.jsonc"
           (patchOf ["ChatRoom"] upper_snake "2025-01-01T00:00:00.000Z")).
  vm_compute. right; right; right; right; right. left. reflexivity.
Defined.

(** ** Running again, and the migration tag *)

Module AgainFacts.
Import Js StringFacts.





Lemma append_same_length (s1 s2 t1 t2 : string) :
  String.length s1 = String.length s2 -> s1 ++ t1 = s2 ++ t2 -> s1 = s2 /\ t1 = t2.
Proof.
  revert s2. induction s1 as [| c s1 IH]; intros [| d s2] Hl H; try discriminate.
  - auto.
  - simpl in Hl, H. inversion H; subst.
    destruct (IH s2) as [-> ->]; auto.
Qed.

Lemma split_free c w : contains c w = false -> split c w = [w].
Proof.
  induction w as [| d w IH]; simpl; [reflexivity |].
  intro H. apply orb_false_iff in H as [Hd Hw]. now rewrite Hd, (IH Hw).
Qed.

Lemma split_app_free c w rest :
  contains c w = false -> split c (w ++ String c rest) = w :: split c rest.
Proof.
  induction w as [| d w IH]; simpl.
  - intros _. now rewrite Ascii.eqb_refl.
  - intro H. apply orb_false_iff in H as [Hd Hw]. now rewrite Hd, (IH Hw).
Qed.

Lemma split_join c ws : forall w,
  forallb (fun q => negb (contains c q)) (w :: ws) = true ->
  split c (join (String c "") (w :: ws)) = w :: ws.
Proof.
  induction ws as [| q ws IH]; intros w H.
  - simpl in H. rewrite andb_true_r in H. apply negb_true_iff in H.
    simpl. apply split_free, H.
  - rewrite join_cons. change (forallb (fun q0 => negb (contains c q0)) (w :: q :: ws))
      with (negb (contains c w) && forallb (fun q0 => negb (contains c q0)) (q :: ws)) in H.
    apply andb_true_iff in H as [Hw Hrest]. apply negb_true_iff in Hw.
    change (w ++ String c "" ++ join (String c "") (q :: ws))
      with (w ++ String c (join (String c "") (q :: ws))).
    rewrite (split_app_free c w _ Hw), (IH q Hrest). reflexivity.
Qed.

Lemma pascal_dash_free nm :
  Re.test Pattern.pascalCase nm = true -> contains "-" nm = false /\ nm <> "".
Proof.
  intro H. destruct (TranscoderFacts.pascal_shape nm H) as (c0 & rest & -> & Hc & Hr).
  split; [| discriminate].
  assert (Hall : allChars alnum (String c0 rest) = true)
    by (simpl; now rewrite (upper_is_alnum c0 Hc), Hr).
  clear - Hall. induction (String c0 rest) as [| d s IH]; simpl; [reflexivity |].
  simpl in Hall. apply andb_true_iff in Hall as [Hd Hs]. rewrite (IH Hs).
  clear - Hd. destruct d as [[] [] [] [] [] [] [] []]; vm_compute in Hd |- *; congruence.
Qed.

Lemma join_dash_inj items items' :
  forallb (Re.test Pattern.pascalCase) items = true ->
  forallb (Re.test Pattern.pascalCase) items' = true ->
  join "-" items = join "-" items' -> items = items'.
Proof.
  intros H H' Heq.
  assert (Hfree : forall l, forallb (Re.test Pattern.pascalCase) l = true ->
                            forallb (fun q => negb (contains "-" q)) l = true).
  { intros l Hl. rewrite forallb_forall in *. intros x Hx.
    apply negb_true_iff, pascal_dash_free, Hl, Hx. }
  assert (Hnonempty : forall w ws, Re.test Pattern.pascalCase w = true ->
                                   join "-" (w :: ws) <> "").
  { intros w ws Hw. destruct (TranscoderFacts.pascal_shape w Hw) as (c0 & rest & -> & _).
    destruct ws; simpl; discriminate. }
  destruct items as [| w ws], items' as [| w' ws'].
  - reflexivity.
  - exfalso. simpl in H'. apply andb_true_iff in H' as [Hw' _].
    apply (Hnonempty w' ws' Hw'). now rewrite <- Heq.
  - exfalso. simpl in H. apply andb_true_iff in H as [Hw _].
    apply (Hnonempty w ws Hw). now rewrite Heq.
  - rewrite <- (split_join "-" ws w (Hfree _ H)), <- (split_join "-" ws' w' (Hfree _ H')).
    now rewrite Heq.
Qed.

End AgainFacts.



(** X14: the migration tag tells runs apart: for timestamps of one length,
    as [toISOString] gives them, and PascalCase class names, two patches
    with the same tag were built at the same time for the same list of
    classes. *)
Theorem migration_tag_identifies_run (now now' : string) (items items' : list string)
  (style style' : NamingStyle) :
  String.length now = String.length now' ->
  forallb (Re.test Pattern.pascalCase) items = true ->
  forallb (Re.test Pattern.pascalCase) items' = true ->
  tagsOf (patchOf items style now) = tagsOf (patchOf items' style' now') ->
  now = now' /\ items = items'.
Proof.
  intros Hlen H H' Htag. unfold tagsOf, patchOf in Htag.
  cbn [patch_migrations map tag] in Htag. inversion Htag as [Heq].
  apply AgainFacts.append_same_length in Heq as [-> Heq]; [| exact Hlen].
  split; [reflexivity |].
  simpl in Heq. inversion Heq as [Hj].
  apply AgainFacts.join_dash_inj; auto.
Qed.

(** Witness for X14: one timestamp, one list of classes. *)
Lemma migration_tag_identifies_run_witness :
  "2025-01-01T00:00:00.000Z" = "2025-01-01T00:00:00.000Z" /\
  ["Counter"; "ChatRoom"] = ["Counter"; "ChatRoom"].
Proof.
  apply (migration_tag_identifies_run "2025-01-01T00:00:00.000Z"
           "2025-01-01T00:00:00.000Z" ["Counter"; "ChatRoom"] ["Counter"; "ChatRoom"]
           camel upper_snake); reflexivity.
Defined.

(** X15: the two tables of styles agree: the style prompt offers each of
    the four styles once, each under the display name the detection notice
    uses for it, and each display name is itself a name of the style it
    names, as the classifier reads it. *)
Theorem style_tables_agree :
  (forall label value,
     In (label, value) selectOptions -> label = namingStyleDisplayNames value) /\
  (forall style, In (namingStyleDisplayNames style, style) selectOptions) /\
  NoDup (map snd selectOptions) /\
  (forall style,
     getNamingStyleFromNamedItems [{| binding := namingStyleDisplayNames style |}]
     = Some style).
Proof.
  split; [| split; [| split]].
  - intros label value Hin. simpl in Hin.
    repeat (destruct Hin as [Hin | Hin]; [inversion Hin; subst; reflexivity |]).
    destruct Hin.
  - intros []; simpl; auto.
  - simpl. repeat constructor; simpl; intuition discriminate.
  - intros []; reflexivity.
Qed.

(** X16: a nonempty part of a classified category is classified too, with
    the same style or one tried earlier; taking bindings away never makes the
    classifier give up, only adding some can. *)
Theorem part_of_classified_category (items items' : list NamedItem) (style : NamingStyle) :
  getNamingStyleFromNamedItems items = Some style ->
  items' <> [] ->
  (forall n, In n (namesOf items') -> In n (namesOf items)) ->
  exists style',
    getNamingStyleFromNamedItems items' = Some style' /\ rank style' <= rank style.
Proof.
  intros H Hne Hsub. apply ClassifierFacts.named_items_Some in H as (_ & Hu & _).
  assert (Hu' : unanimous style items').
  { unfold unanimous in *. rewrite ShapeOfCategories.everyMatches_names in *.
    rewrite forallb_forall in *. auto. }
  destruct (ClassifierFacts.named_items_total items' style Hne Hu') as [style' Hs'].
  exists style'. split; [exact Hs' |].
  apply ClassifierFacts.named_items_Some in Hs' as (_ & _ & Hmin). auto.
Qed.

(** Witness for X16: ["my_kv"; "cache"] is lower_snake, its part ["cache"]
    is camel. *)
Lemma part_of_classified_category_witness :
  exists style',
    getNamingStyleFromNamedItems (itemsOf ["cache"]) = Some style' /\
    rank style' <= rank lower_snake.
Proof.
  apply (part_of_classified_category (itemsOf ["my_kv"; "cache"]) (itemsOf ["cache"])
           lower_snake).
  - reflexivity.
  - discriminate.
  - intros n [<- | []]. simpl. auto.
Defined.

(** X17: the class an existing durable-object binding points to is never
    read: a run is the same whatever classes the existing bindings have, as
    only their names are compared with the discovered class identifiers. *)
Theorem existing_classes_are_not_read (f : string -> string) (w : World) :
  script (withConfig (withClasses f (readConfig w)) w) = script w.
Proof.
  assert (Hnames : map name (bindings (durable_objects (withClasses f (readConfig w))))
                   = map name (bindings (durable_objects (readConfig w)))).
  { unfold withClasses. cbn [durable_objects bindings]. rewrite map_map. reflexivity. }
  assert (Hd : defaultTypeOf (withClasses f (readConfig w))
                 (withConfig (withClasses f (readConfig w)) w)
               = defaultTypeOf (readConfig w) w).
  { unfold defaultTypeOf, createTypescript, findTypeScriptPath.
    unfold bind, ask, ret, orBail, bail, halt.
    simpl.
    destruct (Nat.ltb 0 (String.length (Js.trim (nodeStdout w)))); simpl; [| reflexivity].
    destruct (main (readConfig w)); simpl; [| reflexivity].
    destruct (Ts.getSourceFile (program w) "/declare/resolver.ts") as [sf |]; simpl;
      [| reflexivity].
    destruct (Ts.symbol sf) as [ms |]; simpl; [| reflexivity].
    destruct (find _ (Ts.exports ms)); reflexivity. }
  assert (Hdecl : forall items,
             declare (withClasses f (readConfig w)) items
               (withConfig (withClasses f (readConfig w)) w)
             = declare (readConfig w) items w).
  { intros [items |]; [| reflexivity].
    rewrite !ScriptFacts.declare_run. reflexivity. }
  unfold script, bind, ask. cbv beta iota zeta.
  change (readConfig (withConfig (withClasses f (readConfig w)) w))
    with (withClasses f (readConfig w)).
  rewrite Hd. destruct (defaultTypeOf (readConfig w) w) as [t [[checker defaultType] | h]];
    [| reflexivity].
  cbv beta iota zeta delta [fst snd].
  unfold netNewItems. rewrite Hnames, Hdecl. reflexivity.
Qed.
